(** * github-stars-crawler: the crawl loop of [crawler.js]

    A shallow embedding of [callGithub] and [main] of [src/crawler.js],
    together with the two libraries whose behaviour decides what
    [callGithub] does: [async-retry] (the [retry] function imported at
    line 5) and [retry] (node-retry), on which [async-retry] is built.
    Both are third-party packages; their models follow the published
    sources (async-retry 1.3, lib/index.js; retry 0.13, lib/retry.js and
    lib/retry_operation.js), quoted where they are embedded.  The module
    [db.js] is not modelled: whether [ensureSchema], [upsertRepos] and
    [closePool] resolve or reject is part of the world.

    Modelling conventions.
    - JavaScript numbers that the code treats as integers (counters,
      millisecond delays, HTTP statuses, timestamps) are [Z]; the jittered
      backoff of node-retry multiplies by [Math.random() + 1] in doubles:
      a double is the rational [Q] it denotes, and every arithmetic
      operation rounds its exact result to the nearest double, ties to
      even (overflow and subnormal numbers, far from the values met
      here, are left out).
    - [null]/[undefined] members are [option]; a member that the code
      dereferences without a guard is a plain field when the schema of
      the remote service declares it non-null ([pageInfo], [id], [name],
      [url]), and [option] with a [TypeError] at the dereference when
      the schema lets it be null (an edge, its [node], [data]).
    - The outside world (network, clock, random source, database) is an
      oracle: a record of answers, one per loop iteration.
    - Effects are an event trace; [console.log] is not part of it. *)

From Stdlib Require Import ZArith QArith Qround List String Lia.
From Stdlib Require Import DecimalString.
Import ListNotations.

Local Open Scope string_scope.
Local Open Scope list_scope.
Local Open Scope Z_scope.

(** ** JavaScript primitives used by the code *)

Module JS.

(** [2^e] for an integer exponent. *)
Definition pow2 (e : Z) : Q :=
  if 0 <=? e then inject_Z (2 ^ e) else (1 # Z.to_pos (2 ^ (- e)))%Q.

(** For [x > 0], the exponent [L] with [2^L <= x < 2^(L+1)]. *)
Definition ilog2 (x : Q) : Z :=
  let L0 := Z.log2 (Qnum x) - Z.log2 (Zpos (Qden x)) in
  if Qle_bool (pow2 L0) x then L0 else L0 - 1.

(** The nearest integer, ties to even. *)
Definition round_even (q : Q) : Z :=
  let f := Qfloor q in
  match Qcompare (q - inject_Z f) (1 # 2) with
  | Lt => f
  | Gt => f + 1
  | Eq => if Z.even f then f else f + 1
  end.

(** The double nearest to [x > 0]: [x] rounded to 53 significant bits. *)
Definition double_pos (x : Q) : Q :=
  let e := ilog2 x - 52 in
  (inject_Z (round_even (x / pow2 e)) * pow2 e)%Q.

(** The double nearest to [x], ties to even.  The exponent range is not
    bounded: the values the program computes, delays of at most 64000,
    are far from overflow and from the subnormals. *)
Definition double (x : Q) : Q :=
  match Qcompare x 0 with
  | Eq => 0%Q
  | Gt => double_pos x
  | Lt => (- double_pos (- x))%Q
  end.

(** [a + b] and [a * b] on doubles. *)
Definition add (a b : Q) : Q := double (a + b).
Definition mul (a b : Q) : Q := double (a * b).

(** [Math.round]: the nearest integer, halves rounded up. *)
Definition Math_round (x : Q) : Z := Qfloor (x + (1 # 2))%Q.

(** [b^n], exactly. *)
Fixpoint power (b : Q) (n : nat) : Q :=
  match n with
  | O => 1%Q
  | S k => (b * power b k)%Q
  end.

(** [Math.pow] at a natural exponent. *)
Definition Math_pow (b : Q) (n : nat) : Q := double (power b n).

Definition Math_max (a b : Z) : Z := Z.max a b.

(** [Array.prototype.map] with a callback that may throw: the first
    exception ends the map ([None]). *)
Fixpoint Array_map {A B : Type} (f : A -> option B) (l : list A)
    : option (list B) :=
  match l with
  | [] => Some []
  | a :: r =>
      match f a with
      | None => None
      | Some b =>
          match Array_map f r with
          | None => None
          | Some bs => Some (b :: bs)
          end
      end
  end.

(** [a ?? d]. *)
Definition nullish {A : Type} (a : option A) (d : A) : A :=
  match a with
  | Some v => v
  | None => d
  end.

(** Truthiness of a string-or-null value: [null] and the empty string
    are falsy. *)
Definition truthy (s : option string) : bool :=
  match s with
  | Some EmptyString => false
  | Some _ => true
  | None => false
  end.

(** A template literal's rendering of an integer. *)
Definition toString (z : Z) : string := NilZero.string_of_int (Z.to_int z).

End JS.

(** ** Data model: the GraphQL response of [QUERY] (lines 19-49) *)

Module Owner.
Record t := { login : option string }.
End Owner.

Module Node.
Record t := {
  id : string;
  databaseId : option Z;
  name : string;
  url : string;
  stargazerCount : option Z;
  owner : option Owner.t
}.
End Node.

(** An edge; its [node] may be [null] ([node: SearchResultItem] in
    GitHub's schema). *)
Record edge := { node : option Node.t }.

Record pageInfo_t := { endCursor : option string; hasNextPage : bool }.

(** [edges] and its elements may be [null] ([edges:
    [SearchResultItemEdge]]); [pageInfo] may not ([pageInfo: PageInfo!]). *)
Record search_t := {
  repositoryCount : Z;
  pageInfo : pageInfo_t;
  edges : option (list (option edge))
}.

(** [resetAt] stands for [new Date(rl.resetAt).getTime()], the reset
    instant in milliseconds. *)
Record rateLimit_t := { limit : Z; cost : Z; remaining : Z; resetAt : Z }.

Record payload := { rateLimit : option rateLimit_t; search : option search_t }.

(** [resp.data], the body of the HTTP response: [errors] is the GraphQL
    error array when present (any array is truthy).  A body that is no
    object with these fields behaves as the body with neither: the loop
    throws a [TypeError] at its first read of it (line 106 or line 114),
    right after [callGithub] returned. *)
Record body := { errors : option (list string); data : option payload }.

(** The record handed to the persistence sink (lines 135-142). *)
Module Repo.
Record t := {
  repo_node_id : string;
  repo_db_id : option Z;
  name : string;
  owner : option string;
  stars : Z;
  url : string
}.
End Repo.

(** A JavaScript [Error] as far as the code looks at it: [err.message]
    and [err.response.status] ([None] when [err.response] is absent). *)
Record error := { message : string; response_status : option Z }.

(** What one [axios.post] does: it resolves with a status and a body, or
    it rejects. *)
Inductive axios_result :=
| AxiosResolved (status : Z) (resp_data : body)
| AxiosRejected (err : error).

(** ** node-retry: timeouts and the main error *)

Module Retry.

(** [maxTimeout = None] is [Infinity], the default. *)
Record options := {
  retries : nat;
  factor : Z;
  minTimeout : Z;
  maxTimeout : option Z;
  randomize : bool
}.

(** [createTimeout(attempt, opts)]; [rnd] is the value [Math.random()]
    returns if it is called.
<<
    var random = (opts.randomize) ? (Math.random() + 1) : 1;
    var timeout = Math.round(random * Math.max(opts.minTimeout, 1)
                             * Math.pow(opts.factor, attempt));
    timeout = Math.min(timeout, opts.maxTimeout);
>> *)
Definition createTimeout (attempt : nat) (opts : options) (rnd : Q) : Z :=
  let random := if randomize opts then JS.add rnd 1 else 1%Q in
  let timeout :=
    JS.Math_round
      (JS.mul (JS.mul random (inject_Z (Z.max (minTimeout opts) 1)))
              (JS.Math_pow (inject_Z (factor opts)) attempt)) in
  match maxTimeout opts with
  | Some m => Z.min timeout m
  | None => timeout
  end.

Fixpoint insert (x : Z) (l : list Z) : list Z :=
  match l with
  | [] => [x]
  | y :: r => if x <=? y then x :: l else y :: insert x r
  end.

(** [timeouts.sort((a, b) => a - b)]. *)
Fixpoint sort (l : list Z) : list Z :=
  match l with
  | [] => []
  | x :: r => insert x (sort r)
  end.

(** [timeouts(options)]: one timeout per retry, sorted ascending;
    [rnd i] is the [i]-th draw of [Math.random()].
<<
    for (var i = 0; i < opts.retries; i++) {
      timeouts.push(this.createTimeout(i, opts));
    }
    timeouts.sort(function(a,b) { return a - b; });
>>
    The operation makes its first attempt at once and one more attempt
    for each timeout: [retries] counts the retries, not the attempts. *)
Definition timeouts (opts : options) (rnd : nat -> Q) : list Z :=
  sort (map (fun i => createTimeout i opts (rnd i)) (seq 0 (retries opts))).

Fixpoint count_of (m : string) (counts : list (string * nat)) : nat :=
  match counts with
  | [] => 0%nat
  | (k, c) :: r => if String.eqb k m then c else count_of m r
  end.

(** One turn of the loop of [mainError]: the state is [counts], the
    current [mainError] and [mainErrorCount]. *)
Definition mainError_step
    (acc : list (string * nat) * option error * nat) (e : error) :=
  let '(counts, main, mainErrorCount) := acc in
  let count := S (count_of (message e) counts) in
  let counts' := (message e, count) :: counts in
  if (mainErrorCount <=? count)%nat
  then (counts', Some e, count)
  else (counts', main, mainErrorCount).

(** [RetryOperation.prototype.mainError]: the error whose message
    occurred most often, the latest one on ties; [null] without errors.
<<
    for (var i = 0; i < this._errors.length; i++) {
      var error = this._errors[i];
      var message = error.message;
      var count = (counts[message] || 0) + 1;
      counts[message] = count;
      if (count >= mainErrorCount) {
        mainError = error;
        mainErrorCount = count;
      }
    }
>> *)
Definition mainError (errors : list error) : option error :=
  snd (fst (fold_left mainError_step errors ([], None, 0%nat))).

End Retry.

(** ** async-retry: [retry(fn, opts)] *)

Module AsyncRetry.

Inductive completion (A : Type) :=
| Returned (v : A)
| Thrown (err : error).
Arguments Returned {A} v.
Arguments Thrown {A} err.

(** What one call [fn(bail, num)] did: whether it called [bail] (and
    with what), and how it completed. *)
Record attempt_result (A : Type) := {
  bailed : option error;
  completed : completion A
}.
Arguments bailed {A} _.
Arguments completed {A} _.

(** What the retrier does, in order: it calls [fn], arms a timer before
    the next attempt, and calls the promise's [resolve] or [reject]. *)
Inductive event (A : Type) :=
| Attempt (num : nat)
| Timer (ms : Z)
| Resolve (v : A)
| Reject (reason : option error).
Arguments Attempt {A} num.
Arguments Timer {A} ms.
Arguments Resolve {A} v.
Arguments Reject {A} reason.

(** The effect of the call of [bail] an attempt made, if it made one:
    [bail(err)] is [reject(err)], and nothing else. *)
Definition bail_events {A : Type} (r : attempt_result A) : list (event A) :=
  match bailed r with
  | Some e => [Reject (Some e)]
  | None => []
  end.

(** [runAttempt] and [onError], with node-retry's [op.retry(err)]
    inlined: [timeouts] are the timeouts still unused, [errors] the
    errors recorded so far.
<<
    function bail(err) { reject(err || new Error('Aborted')); }
    function onError(err, num) {
      if (err.bail) { bail(err); return; }
      if (!op.retry(err)) { reject(op.mainError()); }
      else if (options.onRetry) { options.onRetry(err, num); }
    }
    function runAttempt(num) {
      var val;
      try { val = fn(bail, num); }
      catch (err) { onError(err, num); return; }
      Promise.resolve(val).then(resolve)
        .catch(function catchIt(err) { onError(err, num); });
    }
    op.attempt(runAttempt);
>>
    [op.retry(err)] records the error, takes the next timeout off the
    list and arms a timer that runs the next attempt; it returns [false]
    when no timeout is left.  [bail(err)] only rejects the promise; when
    [fn] then throws, [onError] runs as for any other failure (the
    thrown error carries no [bail] member), so the operation goes on. *)
Fixpoint run {A : Type} (fn : nat -> attempt_result A) (num : nat)
    (timeouts : list Z) (errors : list error) {struct timeouts}
    : list (event A) :=
  let r := fn num in
  Attempt num :: bail_events r ++
  match completed r with
  | Returned v => [Resolve v]
  | Thrown err =>
      let errors' := errors ++ [err] in
      match timeouts with
      | [] => [Reject (Retry.mainError errors')]
      | t :: ts => Timer t :: run fn (S num) ts errors'
      end
  end.

(** The options of [retry]: [randomize] is set to [true] unless the
    caller's options have it.
<<
    if (!('randomize' in options)) { options.randomize = true; }
    op = retrier.operation(options);
>> *)
Record options := {
  retries : nat;
  minTimeout : Z;
  factor : Z;
  randomize : option bool
}.

Definition retrier_options (o : options) : Retry.options :=
  {| Retry.retries := retries o;
     Retry.factor := factor o;
     Retry.minTimeout := minTimeout o;
     Retry.maxTimeout := None;
     Retry.randomize := JS.nullish (randomize o) true |}.

Definition retry {A : Type} (fn : nat -> attempt_result A) (opts : options)
    (rnd : nat -> Q) : list (event A) :=
  run fn 1 (Retry.timeouts (retrier_options opts) rnd) [].

(** A promise is settled by the first call of [resolve] or [reject];
    later calls do nothing. *)
Fixpoint settled {A : Type} (tr : list (event A)) : option (A + option error) :=
  match tr with
  | [] => None
  | Resolve v :: _ => Some (inl v)
  | Reject e :: _ => Some (inr e)
  | _ :: r => settled r
  end.

(** The part of the trace up to the settling call, and the part after. *)
Fixpoint before_settled {A : Type} (tr : list (event A)) : list (event A) :=
  match tr with
  | [] => []
  | Resolve _ :: _ => []
  | Reject _ :: _ => []
  | e :: r => e :: before_settled r
  end.

Fixpoint after_settled {A : Type} (tr : list (event A)) : list (event A) :=
  match tr with
  | [] => []
  | Resolve _ :: r => r
  | Reject _ :: r => r
  | _ :: r => after_settled r
  end.

Definition is_attempt {A : Type} (e : event A) : bool :=
  match e with
  | Attempt _ => true
  | _ => false
  end.

(** Number of calls of [fn] in a trace. *)
Definition attempts {A : Type} (tr : list (event A)) : nat :=
  List.length (filter is_attempt tr).

(** The attempts and the timers of a trace, in order, without the
    calls of [resolve] and [reject]. *)
Definition schedule {A : Type} (tr : list (event A)) : list (event A) :=
  filter (fun e => match e with
                   | Attempt _ | Timer _ => true
                   | _ => false
                   end) tr.

(** The timers armed in a trace, in order. *)
Fixpoint timers {A : Type} (tr : list (event A)) : list Z :=
  match tr with
  | [] => []
  | Timer ms :: r => ms :: timers r
  | _ :: r => timers r
  end.

End AsyncRetry.

(** ** [callGithub] (lines 55-82) *)

Import AsyncRetry.

Definition PAGE_SIZE : Z := 100.

(** The [variables] object of line 96. *)
Module Request.
Record t := {
  queryString : string;
  first : Z;
  after : option string
}.
End Request.

Definition unauthorized : error :=
  {| message := "Unauthorized - check token"; response_status := None |}.

(** [err.response && err.response.status === 401]. *)
Definition is_401 (err : error) : bool :=
  match response_status err with
  | Some s => s =? 401
  | None => false
  end.

(** The [catch] block, lines 69-76: [bail] on a 401, then in every case
    the [throw err] of line 75. *)
Definition callGithub_catch (err : error) : attempt_result body :=
  {| bailed := if is_401 err then Some unauthorized else None;
     completed := Thrown err |}.

(** The function handed to [retry], lines 57-77, on the outcome of its
    [axios.post]. *)
Definition callGithub_fn (post : axios_result) : attempt_result body :=
  match post with
  | AxiosResolved status resp_data =>
      if 500 <=? status
      then callGithub_catch
             {| message := ("Server error " ++ JS.toString status)%string;
                response_status := None |}
      else {| bailed := None; completed := Returned resp_data |}
  | AxiosRejected err => callGithub_catch err
  end.

Definition callGithub_options : AsyncRetry.options :=
  {| retries := 5; minTimeout := 1000; factor := 2; randomize := None |}.

(** The options [callGithub] passes, as node-retry sees them. *)
Definition opts : Retry.options := retrier_options callGithub_options.

(** [callGithub(variables)]: [post variables n] is what the [n]-th
    [axios.post] of this call does, [rnd] the draws of [Math.random()]. *)
Definition callGithub (post : Request.t -> nat -> axios_result)
    (rnd : nat -> Q) (variables : Request.t) : list (event body) :=
  retry (fun num => callGithub_fn (post variables num)) callGithub_options rnd.

(** ** [main] (lines 84-172) and the top-level handler (lines 174-177) *)

(** The crawl state: the three [let] variables of lines 88-90. *)
Record state := { collected : Z; after : option string; page : Z }.

(** What the world answers during one turn of the loop: the outcomes of
    the [axios.post] calls, the draws of [Math.random()], the value of
    [Date.now()] at line 119, and whether [upsertRepos] resolves. *)
Record iteration := {
  post : Request.t -> nat -> axios_result;
  random : nat -> Q;
  now : Z;
  upsertRepos : list Repo.t -> bool
}.

(** The four [sleep] calls of the loop, by line: 109, 122, 153, 164. *)
Inductive pause := AfterErrors | RateLimit | AfterDbError | Throttle.

(** The observable steps of [main]. *)
Inductive effect :=
| EnsureSchema
| CallGithub (variables : Request.t)
| Sleep (why : pause) (ms : Z)
| UpsertRepos (repos : list Repo.t) (resolved : bool)
| ClosePool.

(** How one turn of the loop body ends: at the loop condition again
    ([continue], or the end of the body), at a [break], with an exception
    that nothing in [main] catches, or never (an [await] on a promise
    that is never settled). *)
Inductive flow := Continue | Break | Uncaught | Pending.

Definition q : string := "stars:>0".

(** Lines 115-124: the wait before the same page is requested again, if
    any. *)
Definition rate_limit_wait (rl : option rateLimit_t) (now : Z) : option Z :=
  match rl with
  | Some rl =>
      if remaining rl <=? 10
      then Some (JS.Math_max 1000 (resetAt rl - now + 2000))
      else None
  | None => None
  end.

(** The arrow function of lines 133-143; [None] is the [TypeError] of
    [e.node] on a null edge (line 134) or of [node.id] on a null node
    (line 136). *)
Definition normalize (e : option edge) : option Repo.t :=
  match e with
  | None => None
  | Some e =>
      match node e with
      | None => None
      | Some node =>
          Some
            {| Repo.repo_node_id := Node.id node;
               (* node.databaseId ?? null *)
               Repo.repo_db_id :=
                 JS.nullish (option_map Some (Node.databaseId node)) None;
               Repo.name := Node.name node;
               (* node.owner?.login ?? null *)
               Repo.owner :=
                 match Node.owner node with
                 | Some o => Owner.login o
                 | None => None
                 end;
               (* node.stargazerCount ?? 0 *)
               Repo.stars := JS.nullish (Node.stargazerCount node) 0;
               Repo.url := Node.url node |}
      end
  end.

(** Lines 127-167, for a response that passed the two checks before;
    an exception of the [map] of line 133 is caught nowhere in [main]. *)
Definition handle_page (it : iteration) (st : state) (search : option search_t)
    : flow * state * list effect :=
  match search with
  | None => (Break, st, [])
  | Some search =>
      match edges search with
      | None => (Break, st, [])
      | Some [] => (Break, st, [])
      | Some es =>
        match JS.Array_map normalize es with
        | None => (Uncaught, st, [])
        | Some repos =>
          let resolved := upsertRepos it repos in
          let collected' :=
            if resolved then collected st + Z.of_nat (List.length repos)
            else collected st in
          let db :=
            UpsertRepos repos resolved ::
            (if resolved then [] else [Sleep AfterDbError 3000]) in
          let after' := endCursor (pageInfo search) in
          let st' :=
            {| collected := collected'; after := after'; page := page st |} in
          if negb (hasNextPage (pageInfo search)) then (Break, st', db)
          else if negb (JS.truthy after')
               then (Break, st', db ++ [Sleep Throttle 200])
               else (Continue, st', db ++ [Sleep Throttle 200])
        end
      end
  end.

(** Line 96. *)
Definition variables (after : option string) : Request.t :=
  {| Request.queryString := q; Request.first := PAGE_SIZE;
     Request.after := after |}.

(** Line 94, [page++]. *)
Definition next_page (st : state) : state :=
  {| collected := collected st; after := after st; page := page st + 1 |}.

(** The loop body, lines 94-167. *)
Definition main_body (it : iteration) (st : state)
    : flow * state * list effect :=
  let st := next_page st in
  let variables := variables (after st) in
  match settled (callGithub (post it) (random it) variables) with
  | None => (Pending, st, [CallGithub variables])
  | Some (inr _) => (Break, st, [CallGithub variables])
  | Some (inl d) =>
      match errors d with
      | Some _ =>
          (Continue, st, [CallGithub variables; Sleep AfterErrors 5000])
      | None =>
          match data d with
          | None => (Uncaught, st, [CallGithub variables])
          | Some p =>
              match rate_limit_wait (rateLimit p) (now it) with
              | Some wait =>
                  (Continue, st, [CallGithub variables; Sleep RateLimit wait])
              | None =>
                  let '(f, st', effs) := handle_page it st (search p) in
                  (f, st', CallGithub variables :: effs)
              end
          end
      end
  end.

(** Why the loop was left: its condition failed, a [break] ran, or an
    exception escaped. *)
Inductive loop_exit := TargetReached | Broke | Escaped.

(** The [while] loop of lines 93-168 against a script of answers, one
    per turn; [None] when the script ends (or an [await] never returns)
    while the loop is still running. *)
Fixpoint loop (TARGET_REPOS : Z) (script : list iteration) (st : state)
    : option (loop_exit * state * list effect) :=
  if collected st <? TARGET_REPOS then
    match script with
    | [] => None
    | it :: rest =>
        match main_body it st with
        | (Continue, st', effs) =>
            match loop TARGET_REPOS rest st' with
            | Some (x, st'', effs') => Some (x, st'', effs ++ effs')
            | None => None
            end
        | (Break, st', effs) => Some (Broke, st', effs)
        | (Uncaught, st', effs) => Some (Escaped, st', effs)
        | (Pending, _, _) => None
        end
    end
  else Some (TargetReached, st, []).

(** The world of one run: whether [ensureSchema] and [closePool] resolve,
    and the answers for the turns of the loop. *)
Record world := {
  ensureSchema : bool;
  script : list iteration;
  closePool : bool
}.

Definition initial : state := {| collected := 0; after := None; page := 0 |}.

(** How the process ends: [main()] resolved (exit code 0), or it
    rejected and the handler of lines 174-177 called [process.exit(1)]. *)
Record outcome := { trace : list effect; exit_code : Z; final : state }.

(** [main()] with its [catch] handler. *)
Definition main (TARGET_REPOS : Z) (w : world) : option outcome :=
  if negb (ensureSchema w)
  then Some {| trace := [EnsureSchema]; exit_code := 1; final := initial |}
  else
    match loop TARGET_REPOS (script w) initial with
    | None => None
    | Some (Escaped, st, effs) =>
        Some {| trace := EnsureSchema :: effs; exit_code := 1; final := st |}
    | Some (_, st, effs) =>
        Some {| trace := EnsureSchema :: effs ++ [ClosePool];
                exit_code := if closePool w then 0 else 1;
                final := st |}
    end.

(** ** Notions the properties speak of *)

(** The record envelopes of a payload: [search.edges], none when
    [search] or [edges] is null. *)
Definition envelopes (p : payload) : list (option edge) :=
  match search p with
  | Some s => JS.nullish (edges s) []
  | None => []
  end.

(** The record envelopes of a response body. *)
Definition records (b : body) : list (option edge) :=
  match data b with
  | Some p => envelopes p
  | None => []
  end.

(** The quota snapshot of a response body, if it carries one. *)
Definition snapshot (b : body) : option rateLimit_t :=
  match data b with
  | Some p => rateLimit p
  | None => None
  end.

(** An envelope that carries a node. *)
Definition has_node (e : option edge) : Prop :=
  exists ed n, e = Some ed /\ node ed = Some n.

(** A turn, begun in state [st], that ends with a [TypeError]: the
    request is answered, without GraphQL errors, with a body that has no
    [data] (line 114), or with enough quota and a page in which some
    edge or node is null (lines 134-136). *)
Definition turn_throws (it : iteration) (st : state) : Prop :=
  exists d,
    settled (callGithub (post it) (random it) (variables (after st)))
    = Some (inl d)
    /\ errors d = None
    /\ (data d = None
        \/ exists p,
             data d = Some p
             /\ (forall rl, rateLimit p = Some rl -> 10 < remaining rl)
             /\ ~ Forall has_node (envelopes p)).

(** The turns of [pre] all run and all end at the loop condition again:
    the state they lead to from [st], and their effects. *)
Fixpoint advance (TARGET_REPOS : Z) (pre : list iteration) (st : state)
    : option (state * list effect) :=
  match pre with
  | [] => Some (st, [])
  | it :: rest =>
      if collected st <? TARGET_REPOS then
        match main_body it st with
        | (Continue, st', effs) =>
            match advance TARGET_REPOS rest st' with
            | Some (st'', effs') => Some (st'', effs ++ effs')
            | None => None
            end
        | _ => None
        end
      else None
  end.

(** The turn [it] of the script is run, in state [st], after the turns
    [pre] and their effects [effs]. *)
Definition runs_turn (TARGET_REPOS : Z) (script : list iteration)
    (pre : list iteration) (it : iteration) (st : state)
    (effs : list effect) : Prop :=
  (exists rest, script = pre ++ it :: rest)
  /\ advance TARGET_REPOS pre initial = Some (st, effs)
  /\ collected st < TARGET_REPOS.

(** An exception escapes [main] before line 171: [ensureSchema] rejects,
    or the loop is left by an exception. *)
Definition escapes (TARGET_REPOS : Z) (w : world) : bool :=
  negb (ensureSchema w)
  || match loop TARGET_REPOS (script w) initial with
     | Some (Escaped, _, _) => true
     | _ => false
     end.

(** The remote service keeps to the page size asked for: no response of
    the script carries more than [PAGE_SIZE] record envelopes. *)
Definition within_page_size (script : list iteration) : Prop :=
  forall it, In it script ->
  forall v k status b,
    post it v k = AxiosResolved status b ->
    Z.of_nat (List.length (records b)) <= PAGE_SIZE.

(** The effects the loop body can have. *)
Definition in_loop (e : effect) : bool :=
  match e with
  | CallGithub _ | Sleep _ _ | UpsertRepos _ _ => true
  | EnsureSchema | ClosePool => false
  end.

(** ** Concrete worlds *)

Definition timeout_error : error :=
  {| message := "timeout of 20000ms exceeded"; response_status := None |}.

Definition http_401 : error :=
  {| message := "Request failed with status code 401";
     response_status := Some 401 |}.

(** [Math.random()] returning 0 at every draw, and 1/2 at every draw. *)
Definition no_jitter : nat -> Q := fun _ => 0%Q.
Definition half_jitter : nat -> Q := fun _ => (1 # 2)%Q.

(** A network on which every [axios.post] rejects with [e]. *)
Definition always_rejects (e : error) : Request.t -> nat -> axios_result :=
  fun _ _ => AxiosRejected e.

Definition a_node (i : string) : Node.t :=
  {| Node.id := i; Node.databaseId := None; Node.name := "crawler";
     Node.url := "https://github.com/o/crawler";
     Node.stargazerCount := None; Node.owner := None |}.

Definition an_edge (i : string) : option edge :=
  Some {| node := Some (a_node i) |}.

Definition two_edges : list (option edge) := [an_edge "R_1"; an_edge "R_2"].

Definition a_repo (i : string) : Repo.t :=
  {| Repo.repo_node_id := i; Repo.repo_db_id := None;
     Repo.name := "crawler"; Repo.owner := None; Repo.stars := 0;
     Repo.url := "https://github.com/o/crawler" |}.

(** The batch of [two_edges]. *)
Definition two_repos : list Repo.t := [a_repo "R_1"; a_repo "R_2"].

(** A page of results with its cursor and [hasNextPage]. *)
Definition a_search (es : list (option edge)) (cursor : option string) (more : bool)
    : search_t :=
  {| repositoryCount := 1000;
     pageInfo := {| endCursor := cursor; hasNextPage := more |};
     edges := Some es |}.

(** A snapshot with 5 calls left, replenished at instant 30000. *)
Definition low_quota : rateLimit_t :=
  {| limit := 5000; cost := 1; remaining := 5; resetAt := 30000 |}.

(** A turn in which the first [axios.post] resolves with status 200 and
    body [b], [Date.now()] is [t], and [upsertRepos] resolves iff [db]. *)
Definition answers (b : body) (t : Z) (db : bool) : iteration :=
  {| post := fun _ _ => AxiosResolved 200 b; random := no_jitter;
     now := t; upsertRepos := fun _ => db |}.

Definition http_502 : error :=
  {| message := "Request failed with status code 502";
     response_status := Some 502 |}.

(** A network that times out five times and answers 502 the sixth. *)
Definition timeouts_then_502 : Request.t -> nat -> axios_result :=
  fun _ num =>
    if (num <? 6)%nat then AxiosRejected timeout_error
    else AxiosRejected http_502.

(** A turn in which every [axios.post] rejects with [e]. *)
Definition fails (e : error) : iteration :=
  {| post := always_rejects e; random := no_jitter; now := 0;
     upsertRepos := fun _ => true |}.

(** A payload without snapshot: two records and more to come. *)
Definition a_payload (cursor : string) : payload :=
  {| rateLimit := None;
     search := Some (a_search two_edges (Some cursor) true) |}.

Definition a_body (cursor : string) : body :=
  {| errors := None; data := Some (a_payload cursor) |}.

(** A page with more to come, while the database is down. *)
Definition db_down_turn : iteration := answers (a_body "Y3Vyc29yOjI=") 0 false.

(** GraphQL errors next to a payload whose snapshot is low. *)
Definition errors_low_quota_turn : iteration :=
  answers {| errors := Some ["Something went wrong while executing your query"];
             data := Some {| rateLimit := Some low_quota; search := None |} |}
          0 true.

(** An empty page, with [hasNextPage] false, and a low snapshot. *)
Definition empty_low_quota_turn : iteration :=
  answers {| errors := None;
             data := Some {| rateLimit := Some low_quota;
                             search := Some (a_search [] None false) |} |}
          0 true.

(** GraphQL errors next to a payload without snapshot that has records. *)
Definition errors_no_snapshot_turn : iteration :=
  answers {| errors := Some ["Something went wrong while executing your query"];
             data := Some {| rateLimit := None;
                             search := Some (a_search two_edges (Some "Y3Vyc29yOjI=") true) |} |}
          0 true.

(** The state after a first page of two records. *)
Definition second_state : state :=
  {| collected := 2; after := Some "Y3Vyc29yOjI="; page := 1 |}.

(** A second page of two records that comes with a low snapshot, and
    one that comes with GraphQL errors and no snapshot. *)
Definition low_quota_page : body :=
  {| errors := None;
     data := Some {| rateLimit := Some low_quota;
                     search := Some (a_search two_edges (Some "Y3Vyc29yOjQ=") true) |} |}.

Definition low_quota_page_turn : iteration := answers low_quota_page 0 true.

Definition errors_page : body :=
  {| errors := Some ["Something went wrong while executing your query"];
     data := Some (a_payload "Y3Vyc29yOjQ=") |}.

Definition errors_page_turn : iteration := answers errors_page 0 true.

(** A status-200 response whose body is no GraphQL answer at all. *)
Definition empty_body_turn : iteration :=
  answers {| errors := None; data := None |} 0 true.

(** A run against a rejected token, one on a dead network, one in which
    [ensureSchema] rejects and one that receives an empty body. *)
Definition unauthorized_world : world :=
  {| ensureSchema := true; script := [fails http_401]; closePool := true |}.

Definition dead_network_world : world :=
  {| ensureSchema := true; script := [fails timeout_error]; closePool := true |}.

Definition no_schema_world : world :=
  {| ensureSchema := false; script := []; closePool := true |}.

Definition empty_body_world : world :=
  {| ensureSchema := true; script := [empty_body_turn]; closePool := true |}.

(** A page is persisted, then the token is rejected. *)
Definition abort_after_page_world : world :=
  {| ensureSchema := true;
     script := [answers (a_body "Y3Vyc29yOjI=") 0 true; fails http_401];
     closePool := true |}.


(** GraphQL errors, then a low snapshot, then a page while the database
    is down, then a page that is persisted. *)
Definition eventful_world : world :=
  {| ensureSchema := true;
     script := [errors_low_quota_turn; empty_low_quota_turn; db_down_turn;
                answers (a_body "Y3Vyc29yOjQ=") 0 true];
     closePool := true |}.

(** Two pages of two records, for a target of three. *)
Definition two_pages_world : world :=
  {| ensureSchema := true;
     script := [answers (a_body "Y3Vyc29yOjI=") 0 true;
                answers (a_body "Y3Vyc29yOjQ=") 0 true];
     closePool := true |}.

(** A body with a page of 100 records and more to come. *)
Definition full_body : body :=
  {| errors := None;
     data := Some {| rateLimit := None;
                     search := Some (a_search (repeat (an_edge "R_1") 100)
                                       (Some "Y3Vyc29yOjEwMA==") true) |} |}.

(** ** Notions the further properties speak of *)

(** An [axios.post] outcome after which the function of [callGithub]
    throws without calling [bail]: a rejection other than a 401, or a
    response with status 500 or above. *)
Definition transient (r : axios_result) : bool :=
  match r with
  | AxiosResolved status _ => 500 <=? status
  | AxiosRejected err => negb (is_401 err)
  end.

(** The error the function of [callGithub] throws on an outcome that
    makes it throw. *)
Definition thrown_error (r : axios_result) : error :=
  match r with
  | AxiosResolved status _ =>
      {| message := ("Server error " ++ JS.toString status)%string;
         response_status := None |}
  | AxiosRejected err => err
  end.

(** The trace of attempts [num], [num + 1], ... that fail one after the
    other, each followed by the timer it arms. *)
Fixpoint failed_prefix {A : Type} (num : nat) (used : list Z)
    : list (event A) :=
  match used with
  | [] => []
  | t :: r => Attempt num :: Timer t :: failed_prefix (S num) r
  end.

(** The sum of a list of delays. *)
Definition total (l : list Z) : Z := fold_right Z.add 0 l.

(** The state after [n] more turns that changed nothing but the page
    counter. *)
Definition add_pages (n : nat) (st : state) : state :=
  {| collected := collected st; after := after st;
     page := page st + Z.of_nat n |}.

(** The result of the rest of the loop, after effects [effs]. *)
Definition prepend (effs : list effect)
    (r : option (loop_exit * state * list effect))
    : option (loop_exit * state * list effect) :=
  match r with
  | Some (x, st, effs') => Some (x, st, effs ++ effs')
  | None => None
  end.

(** The pause a response asks for before the same page is requested
    again: 5000ms when it carries GraphQL errors; the governor's wait
    when it carries none and its snapshot is at or below the threshold. *)
Definition stall_pause (it : iteration) (d : body) (pause : effect) : Prop :=
  (errors d <> None /\ pause = Sleep AfterErrors 5000)
  \/ (errors d = None
      /\ exists p rl,
           data d = Some p /\ rateLimit p = Some rl /\ remaining rl <= 10
           /\ pause
              = Sleep RateLimit (Z.max 1000 (resetAt rl - now it + 2000))).

(** A turn whose request for the page after [cursor] is answered with a
    response that asks for [pause]. *)
Definition stalled (cursor : option string) (it : iteration) (pause : effect)
    : Prop :=
  exists d,
    settled (callGithub (post it) (random it) (variables cursor))
    = Some (inl d)
    /\ stall_pause it d pause.

(** A turn whose request for the page after [cursor] is answered with
    GraphQL errors, or with a quota snapshot at or below the threshold. *)
Definition stalls (cursor : option string) (it : iteration) : Prop :=
  exists d,
    settled (callGithub (post it) (random it) (variables cursor))
    = Some (inl d)
    /\ (errors d <> None
        \/ exists p rl,
             data d = Some p /\ rateLimit p = Some rl /\ remaining rl <= 10).

(** What a stalled turn does: the request for the page after [cursor],
    and a pause of 5000ms or of the governor (1000ms at least). *)
Definition stall_effect (cursor : option string) (e : effect) : Prop :=
  e = CallGithub (variables cursor)
  \/ e = Sleep AfterErrors 5000
  \/ exists ms, e = Sleep RateLimit ms /\ 1000 <= ms.

(** The number of records in the batches [upsertRepos] accepted. *)
Fixpoint persisted (effs : list effect) : Z :=
  match effs with
  | [] => 0
  | UpsertRepos repos true :: r => Z.of_nat (List.length repos) + persisted r
  | _ :: r => persisted r
  end.

(** The number of calls of [callGithub], and of [upsertRepos]. *)
Fixpoint requests (effs : list effect) : nat :=
  match effs with
  | [] => 0%nat
  | CallGithub _ :: r => S (requests r)
  | _ :: r => requests r
  end.

Fixpoint upserts (effs : list effect) : nat :=
  match effs with
  | [] => 0%nat
  | UpsertRepos _ _ :: r => S (upserts r)
  | _ :: r => upserts r
  end.

(** The response [callGithub] returned in the turn [it], run in state
    [st], had no GraphQL errors and carried [c] as [endCursor]. *)
Definition received (it : iteration) (st : state) (c : option string)
    : Prop :=
  exists d p s,
    settled (callGithub (post it) (random it) (variables (after st)))
    = Some (inl d)
    /\ errors d = None /\ data d = Some p /\ search p = Some s
    /\ endCursor (pageInfo s) = c.

(** The cursor [c] was received in a turn of [pre], run from [st0]. *)
Definition received_earlier (TARGET_REPOS : Z) (st0 : state)
    (pre : list iteration) (c : option string) : Prop :=
  exists pre1 it1 pre2 st1 effs1,
    pre = pre1 ++ it1 :: pre2
    /\ advance TARGET_REPOS pre1 st0 = Some (st1, effs1)
    /\ collected st1 < TARGET_REPOS
    /\ received it1 st1 c.

(** The pauses of the loop: fixed, but for the governor's, which is
    1000ms at least. *)
Definition pause_ok (e : effect) : Prop :=
  match e with
  | Sleep AfterErrors ms => ms = 5000
  | Sleep RateLimit ms => 1000 <= ms
  | Sleep AfterDbError ms => ms = 3000
  | Sleep Throttle ms => ms = 200
  | _ => True
  end.

(** A batch handed to [upsertRepos] has records. *)
Definition batch_ok (e : effect) : Prop :=
  match e with
  | UpsertRepos repos _ => repos <> []
  | _ => True
  end.

(** A turn that goes well whatever page is asked for: the first
    [axios.post] delivers a page of exactly [PAGE_SIZE] records, with
    enough quota, a cursor and more to come, and [upsertRepos] accepts
    the batch. *)
Definition full_page (it : iteration) : Prop :=
  exists d p s es repos,
    (forall v, settled (callGithub (post it) (random it) v) = Some (inl d))
    /\ errors d = None /\ data d = Some p
    /\ (forall rl, rateLimit p = Some rl -> 10 < remaining rl)
    /\ search p = Some s /\ edges s = Some es
    /\ Z.of_nat (List.length es) = PAGE_SIZE
    /\ hasNextPage (pageInfo s) = true
    /\ JS.truthy (endCursor (pageInfo s)) = true
    /\ JS.Array_map normalize es = Some repos
    /\ upsertRepos it repos = true.

(** Every request in [effs] is made while the number of records
    persisted so far, [c] at the start, is below the target. *)
Fixpoint guarded (TARGET_REPOS : Z) (c : Z) (effs : list effect) : Prop :=
  match effs with
  | [] => True
  | CallGithub _ :: r => c < TARGET_REPOS /\ guarded TARGET_REPOS c r
  | UpsertRepos repos true :: r =>
      guarded TARGET_REPOS (c + Z.of_nat (List.length repos)) r
  | _ :: r => guarded TARGET_REPOS c r
  end.

(** Rewriting a turn with what [callGithub] settled to. *)
Ltac resolved H :=
  unfold main_body; cbn [next_page after]; rewrite H.

(** * Properties *)

(** ** The timeouts of node-retry *)

Section Timeouts.

Import Retry.

Lemma power_inject_Z (b : Z) (n : nat) :
  (JS.power (inject_Z b) n == inject_Z (b ^ Z.of_nat n))%Q.
Proof.
  induction n as [|n IH].
  - reflexivity.
  - cbn [JS.power]. rewrite IH, <- inject_Z_mult.
    rewrite Nat2Z.inj_succ, Z.pow_succ_r by lia. reflexivity.
Qed.

Lemma Math_round_lower (x : Q) (z : Z) :
  (inject_Z z <= x)%Q -> z <= JS.Math_round x.
Proof.
  intros H. unfold JS.Math_round.
  rewrite <- (Qfloor_Z z). apply Qfloor_resp_le.
  apply Qle_trans with x; [exact H|].
  rewrite <- (Qplus_0_r x) at 1. apply Qplus_le_r. discriminate.
Qed.

Lemma Math_round_upper (x : Q) (z : Z) :
  (x <= inject_Z z)%Q -> JS.Math_round x <= z.
Proof.
  intros H. unfold JS.Math_round.
  assert (Hlt : (inject_Z (Qfloor (x + (1 # 2))) < inject_Z (z + 1))%Q).
  { apply Qle_lt_trans with (x + (1 # 2))%Q; [apply Qfloor_le|].
    rewrite inject_Z_plus.
    apply Qle_lt_trans with (inject_Z z + (1 # 2))%Q.
    - apply Qplus_le_l. exact H.
    - apply Qplus_lt_r. reflexivity. }
  rewrite <- Zlt_Qlt in Hlt. lia.
Qed.

Lemma round_even_lower (q : Q) (z : Z) :
  (inject_Z z <= q)%Q -> z <= JS.round_even q.
Proof.
  intros H. apply Qfloor_resp_le in H. rewrite Qfloor_Z in H.
  unfold JS.round_even.
  destruct (Qcompare _ _); [destruct (Z.even _)| |]; lia.
Qed.

Lemma round_even_upper (q : Q) (z : Z) :
  (q <= inject_Z z)%Q -> JS.round_even q <= z.
Proof.
  intros H. unfold JS.round_even.
  assert (Hfz : Qfloor q <= z).
  { apply Qfloor_resp_le in H. rewrite Qfloor_Z in H. exact H. }
  assert (Hstrict : (0 < q - inject_Z (Qfloor q))%Q -> Qfloor q + 1 <= z).
  { intros Hp.
    assert (Hlt : (inject_Z (Qfloor q) < inject_Z z)%Q).
    { apply Qlt_le_trans with q; [|exact H].
      apply Qlt_minus_iff. exact Hp. }
    rewrite <- Zlt_Qlt in Hlt. lia. }
  destruct (Qcompare (q - inject_Z (Qfloor q)) (1 # 2)) eqn:E.
  - destruct (Z.even _); [exact Hfz|].
    apply Hstrict. apply Qeq_alt in E. rewrite E. reflexivity.
  - exact Hfz.
  - apply Hstrict. apply Qgt_alt in E.
    apply Qlt_trans with (1 # 2)%Q; [reflexivity|exact E].
Qed.

Lemma pow2_pos (e : Z) : (0 < JS.pow2 e)%Q.
Proof.
  unfold JS.pow2. destruct (Z.leb_spec 0 e).
  - change 0%Q with (inject_Z 0). rewrite <- Zlt_Qlt.
    apply Z.pow_pos_nonneg; lia.
  - reflexivity.
Qed.

(** For [e <= 0], [2^e] is one over the integer [2^(-e)]. *)
Lemma pow2_nonpos (e : Z) :
  e <= 0 -> (JS.pow2 e * inject_Z (2 ^ (- e)) == 1)%Q.
Proof.
  intros He. unfold JS.pow2. destruct (Z.leb_spec 0 e).
  - assert (e = 0) by lia. subst e. reflexivity.
  - assert (Hp : 0 < 2 ^ (- e)) by (apply Z.pow_pos_nonneg; lia).
    unfold Qeq, Qmult, inject_Z. cbn [Qnum Qden].
    rewrite Pos.mul_1_r, Z2Pos.id by exact Hp. lia.
Qed.

Lemma ilog2_le_52 (x : Q) :
  (0 < x)%Q -> (x < inject_Z (2 ^ 53))%Q -> JS.ilog2 x <= 52.
Proof.
  intros H0 H1. unfold JS.ilog2.
  set (L0 := Z.log2 (Qnum x) - Z.log2 (Zpos (Qden x))).
  destruct (Qle_bool (JS.pow2 L0) x) eqn:E.
  - apply Qle_bool_iff in E.
    destruct (Z.le_gt_cases 53 L0) as [Hge|]; [|lia]. exfalso.
    assert (Hlt : (JS.pow2 L0 < inject_Z (2 ^ 53))%Q)
      by (apply Qle_lt_trans with x; assumption).
    unfold JS.pow2 in Hlt. destruct (Z.leb_spec 0 L0); [|lia].
    rewrite <- Zlt_Qlt in Hlt.
    pose proof (Z.pow_le_mono_r 2 53 L0 ltac:(lia) Hge). lia.
  - assert (Hn : 0 < Qnum x).
    { unfold Qlt in H0. cbn in H0. lia. }
    assert (Hlt : Qnum x < 2 ^ 53 * Zpos (Qden x)).
    { unfold Qlt in H1. cbn [inject_Z Qnum Qden] in H1. lia. }
    assert (Hlog : Z.log2 (Qnum x) <= Z.log2 (2 ^ 53 * Zpos (Qden x)))
      by (apply Z.log2_le_mono; lia).
    rewrite (Z.mul_comm (2 ^ 53)), Z.log2_mul_pow2 in Hlog by lia.
    unfold L0. lia.
Qed.

(** Below [2^53] every integer is a double: rounding a number to the
    nearest double keeps it on the same side of every integer. *)
Lemma double_scaled (x : Q) :
  (0 < x)%Q -> (x < inject_Z (2 ^ 53))%Q ->
  exists P : Z,
    0 < P
    /\ (JS.double x * inject_Z P
        == inject_Z (JS.round_even (x / JS.pow2 (JS.ilog2 x - 52))))%Q
    /\ (x / JS.pow2 (JS.ilog2 x - 52) == x * inject_Z P)%Q.
Proof.
  intros Hpos Hsmall.
  set (e := JS.ilog2 x - 52).
  assert (He : e <= 0)
    by (pose proof (ilog2_le_52 x Hpos Hsmall); unfold e; lia).
  exists (2 ^ (- e)).
  assert (HP : 0 < 2 ^ (- e)) by (apply Z.pow_pos_nonneg; lia).
  pose proof (pow2_nonpos e He) as Hinv.
  pose proof (pow2_pos e) as Hpe.
  split; [exact HP|]. split.
  - unfold JS.double. rewrite Qgt_alt in Hpos. rewrite Hpos.
    unfold JS.double_pos. fold e.
    rewrite <- Qmult_assoc, Hinv, Qmult_1_r. reflexivity.
  - apply Qeq_sym. rewrite <- (Qmult_1_r (x / JS.pow2 e)), <- Hinv.
    field. intros H. rewrite H in Hpe. discriminate Hpe.
Qed.

Lemma double_lower (x : Q) (z : Z) :
  (0 < x)%Q -> (x < inject_Z (2 ^ 53))%Q ->
  (inject_Z z <= x)%Q -> (inject_Z z <= JS.double x)%Q.
Proof.
  intros Hpos Hsmall H.
  destruct (double_scaled x Hpos Hsmall) as (P & HP & Hd & Hs).
  assert (HPq : (0 < inject_Z P)%Q)
    by (change 0%Q with (inject_Z 0); rewrite <- Zlt_Qlt; exact HP).
  apply (Qmult_le_r _ _ (inject_Z P) HPq).
  rewrite Hd, <- inject_Z_mult, <- Zle_Qle.
  apply round_even_lower. rewrite Hs, inject_Z_mult.
  apply Qmult_le_compat_r; [exact H|apply Qlt_le_weak; exact HPq].
Qed.

Lemma double_upper (x : Q) (z : Z) :
  (0 < x)%Q -> (x < inject_Z (2 ^ 53))%Q ->
  (x <= inject_Z z)%Q -> (JS.double x <= inject_Z z)%Q.
Proof.
  intros Hpos Hsmall H.
  destruct (double_scaled x Hpos Hsmall) as (P & HP & Hd & Hs).
  assert (HPq : (0 < inject_Z P)%Q)
    by (change 0%Q with (inject_Z 0); rewrite <- Zlt_Qlt; exact HP).
  apply (Qmult_le_r _ _ (inject_Z P) HPq).
  rewrite Hd, <- inject_Z_mult, <- Zle_Qle.
  apply round_even_upper. rewrite Hs, inject_Z_mult.
  apply Qmult_le_compat_r; [exact H|apply Qlt_le_weak; exact HPq].
Qed.

(** A number between two integers [a > 0] and [b < 2^53] rounds to a
    double between them. *)
Lemma double_between (x : Q) (a b : Z) :
  0 < a -> b < 2 ^ 53 ->
  (inject_Z a <= x)%Q -> (x <= inject_Z b)%Q ->
  (inject_Z a <= JS.double x)%Q /\ (JS.double x <= inject_Z b)%Q.
Proof.
  intros Ha Hb H1 H2.
  assert (Hpos : (0 < x)%Q).
  { apply Qlt_le_trans with (inject_Z a); [|exact H1].
    change 0%Q with (inject_Z 0). rewrite <- Zlt_Qlt. exact Ha. }
  assert (Hsmall : (x < inject_Z (2 ^ 53))%Q).
  { apply Qle_lt_trans with (inject_Z b); [exact H2|].
    rewrite <- Zlt_Qlt. exact Hb. }
  split; [apply double_lower|apply double_upper]; assumption.
Qed.

(** A jittered timeout lies between the plain exponential backoff and
    twice that. *)
Lemma createTimeout_bounds (k : nat) (rnd : Q) :
  (k <= 4)%nat ->
  (0 <= rnd)%Q -> (rnd < 1)%Q ->
  1000 * 2 ^ Z.of_nat k <= createTimeout k opts rnd
    <= 2 * (1000 * 2 ^ Z.of_nat k).
Proof.
  intros Hk H0 H1.
  change (createTimeout k opts rnd)
    with (JS.Math_round
            (JS.double (JS.double (JS.double (rnd + 1) * inject_Z 1000)
                        * JS.double (JS.power (inject_Z 2) k)))).
  assert (Hp : 1 <= 2 ^ Z.of_nat k <= 16).
  { split.
    - pose proof (Z.pow_pos_nonneg 2 (Z.of_nat k) ltac:(lia) ltac:(lia)). lia.
    - change 16 with (2 ^ 4). apply Z.pow_le_mono_r; lia. }
  set (p := 2 ^ Z.of_nat k) in *.
  (* random = Math.random() + 1 *)
  destruct (double_between (rnd + 1) 1 2 ltac:(lia) ltac:(lia)) as [A1 A2].
  { rewrite <- (Qplus_0_l (inject_Z 1)). apply Qplus_le_l. exact H0. }
  { change (inject_Z 2) with (1 + 1)%Q. apply Qplus_le_l.
    apply Qlt_le_weak. exact H1. }
  set (a := JS.double (rnd + 1)) in *.
  (* random * Math.max(minTimeout, 1) *)
  assert (Q1000 : (0 <= inject_Z 1000)%Q) by discriminate.
  destruct (double_between (a * inject_Z 1000) 1000 2000 ltac:(lia) ltac:(lia))
    as [B1 B2].
  { rewrite <- (Qmult_1_l (inject_Z 1000)) at 1.
    apply Qmult_le_compat_r; assumption. }
  { change (inject_Z 2000) with (inject_Z 2 * inject_Z 1000)%Q.
    apply Qmult_le_compat_r; assumption. }
  set (b := JS.double (a * inject_Z 1000)) in *.
  (* Math.pow(factor, attempt) *)
  destruct (double_between (JS.power (inject_Z 2) k) p p ltac:(lia) ltac:(lia))
    as [P1 P2]; try (rewrite power_inject_Z; apply Qle_refl).
  set (c := JS.double (JS.power (inject_Z 2) k)) in *.
  assert (Pq : (0 <= inject_Z p)%Q)
    by (change 0%Q with (inject_Z 0); rewrite <- Zle_Qle; lia).
  assert (Cq : (0 <= c)%Q) by (apply Qle_trans with (inject_Z p); assumption).
  assert (Bq : (0 <= b)%Q)
    by (apply Qle_trans with (inject_Z 1000); assumption).
  (* the product of the two *)
  destruct (double_between (b * c) (1000 * p) (2000 * p) ltac:(lia) ltac:(lia))
    as [C1 C2].
  { rewrite inject_Z_mult.
    apply Qle_trans with (inject_Z 1000 * c)%Q.
    - apply Qmult_le_l; [reflexivity|exact P1].
    - apply Qmult_le_compat_r; assumption. }
  { rewrite inject_Z_mult.
    apply Qle_trans with (b * inject_Z p)%Q.
    - rewrite !(Qmult_comm b). apply Qmult_le_compat_r; assumption.
    - apply Qmult_le_compat_r; assumption. }
  split.
  - apply Math_round_lower. exact C1.
  - apply Math_round_upper. replace (2 * (1000 * p)) with (2000 * p) by lia.
    exact C2.
Qed.

Lemma insert_head (x y : Z) (l : list Z) :
  x <= y -> insert x (y :: l) = x :: y :: l.
Proof.
  intros H. cbn. destruct (Z.leb_spec x y); [reflexivity|lia].
Qed.

(** With factor 2 the jittered timeouts are already in ascending order:
    sorting leaves them where they are, so the [k]-th retry waits the
    timeout computed for index [k]. *)
Lemma timeouts_callGithub (rnd : nat -> Q) :
  (forall i, 0 <= rnd i /\ rnd i < 1)%Q ->
  timeouts opts rnd
  = map (fun i => createTimeout i opts (rnd i)) (seq 0 5).
Proof.
  intros Hr. unfold timeouts. change (retries opts) with 5%nat.
  cbn [seq map sort].
  pose proof (createTimeout_bounds 0 (rnd 0%nat) ltac:(lia) (proj1 (Hr _)) (proj2 (Hr _))) as B0.
  pose proof (createTimeout_bounds 1 (rnd 1%nat) ltac:(lia) (proj1 (Hr _)) (proj2 (Hr _))) as B1.
  pose proof (createTimeout_bounds 2 (rnd 2%nat) ltac:(lia) (proj1 (Hr _)) (proj2 (Hr _))) as B2.
  pose proof (createTimeout_bounds 3 (rnd 3%nat) ltac:(lia) (proj1 (Hr _)) (proj2 (Hr _))) as B3.
  pose proof (createTimeout_bounds 4 (rnd 4%nat) ltac:(lia) (proj1 (Hr _)) (proj2 (Hr _))) as B4.
  revert B0 B1 B2 B3 B4.
  generalize (createTimeout 0 opts (rnd 0%nat)) as t0.
  generalize (createTimeout 1 opts (rnd 1%nat)) as t1.
  generalize (createTimeout 2 opts (rnd 2%nat)) as t2.
  generalize (createTimeout 3 opts (rnd 3%nat)) as t3.
  generalize (createTimeout 4 opts (rnd 4%nat)) as t4.
  intros t4 t3 t2 t1 t0.
  change (2 ^ Z.of_nat 0) with 1. change (2 ^ Z.of_nat 1) with 2.
  change (2 ^ Z.of_nat 2) with 4. change (2 ^ Z.of_nat 3) with 8.
  change (2 ^ Z.of_nat 4) with 16.
  intros B0 B1 B2 B3 B4.
  change (insert t4 []) with [t4].
  rewrite (insert_head t3 t4) by lia.
  rewrite (insert_head t2 t3) by lia.
  rewrite (insert_head t1 t2) by lia.
  rewrite (insert_head t0 t1) by lia.
  reflexivity.
Qed.

End Timeouts.

(** ** The main error of node-retry *)

Section MainError.

Import Retry.

Lemma mainError_snoc (errors : list error) (e : error) :
  mainError (errors ++ [e])
  = snd (fst (mainError_step
                (fold_left mainError_step errors ([], None, 0%nat)) e)).
Proof.
  unfold mainError. rewrite fold_left_app. reflexivity.
Qed.

(** While every error carries the message [m], the count kept for [m]
    is at least [mainErrorCount]. *)
Lemma mainError_same_inv (m : string) (errors : list error) :
  forall counts main mainErrorCount,
    (forall x, In x errors -> message x = m) ->
    (mainErrorCount <= count_of m counts)%nat ->
    let '(counts', _, mainErrorCount') :=
      fold_left mainError_step errors (counts, main, mainErrorCount) in
    (mainErrorCount' <= count_of m counts')%nat.
Proof.
  induction errors as [|e errors IH]; intros counts main mc Hm Hc.
  - exact Hc.
  - cbn [fold_left]. unfold mainError_step at 2.
    rewrite (Hm e (or_introl eq_refl)).
    destruct (Nat.leb_spec mc (S (count_of m counts))).
    + apply IH.
      * intros x Hx. apply Hm. right. exact Hx.
      * cbn [count_of]. rewrite String.eqb_refl. lia.
    + lia.
Qed.

(** When every failed attempt carries the same message, the main error
    is the last error. *)
Lemma mainError_same_message (m : string) (errors : list error) (e : error) :
  (forall x, In x errors -> message x = m) -> message e = m ->
  mainError (errors ++ [e]) = Some e.
Proof.
  intros Hm He. rewrite mainError_snoc.
  pose proof (mainError_same_inv m errors [] None 0%nat Hm (Nat.le_0_l _)) as H.
  destruct (fold_left mainError_step errors ([], None, 0%nat))
    as [[counts main] mc].
  unfold mainError_step. rewrite He.
  destruct (Nat.leb_spec mc (S (count_of m counts))); [reflexivity|lia].
Qed.

End MainError.

(** ** The retrier of async-retry *)

Section Retrier.

Context {A : Type}.
Variable fn : nat -> attempt_result A.

Lemma attempts_app (tr1 tr2 : list (event A)) :
  attempts (tr1 ++ tr2) = (attempts tr1 + attempts tr2)%nat.
Proof.
  unfold attempts. rewrite filter_app, length_app. reflexivity.
Qed.

Lemma run_eq (num : nat) (timeouts : list Z) (errors : list error) :
  run fn num timeouts errors
  = Attempt num :: bail_events (fn num) ++
    match completed (fn num) with
    | Returned v => [Resolve v]
    | Thrown err =>
        match timeouts with
        | [] => [Reject (Retry.mainError (errors ++ [err]))]
        | t :: ts => Timer t :: run fn (S num) ts (errors ++ [err])
        end
    end.
Proof. destruct timeouts; reflexivity. Qed.

Lemma attempts_bail_events (r : attempt_result A) :
  attempts (bail_events r) = 0%nat.
Proof. unfold bail_events. destruct (bailed r); reflexivity. Qed.

Lemma timers_bail_events (r : attempt_result A) (tr : list (event A)) :
  timers (bail_events r ++ tr) = timers tr.
Proof. unfold bail_events. destruct (bailed r); reflexivity. Qed.

(** One call of [fn] per timeout, and one more. *)
Lemma run_attempts_le (timeouts : list Z) :
  forall num errors,
    (attempts (run fn num timeouts errors) <= S (List.length timeouts))%nat.
Proof.
  induction timeouts as [|t ts IH]; intros num errors; rewrite run_eq;
    change (attempts (Attempt num :: ?tr)) with (S (attempts tr));
    rewrite attempts_app, attempts_bail_events;
    destruct (completed (fn num)) as [v|err]; cbn [List.length plus];
    try (cbn; lia).
  change (attempts (Timer t :: ?tr)) with (attempts tr).
  specialize (IH (S num) (errors ++ [err])). lia.
Qed.

(** The timers armed are the first timeouts, in their order. *)
Lemma run_timers (timeouts : list Z) :
  forall num errors,
    exists unused, timeouts = timers (run fn num timeouts errors) ++ unused.
Proof.
  induction timeouts as [|t ts IH]; intros num errors; rewrite run_eq;
    change (timers (Attempt num :: ?tr)) with (timers tr);
    rewrite timers_bail_events;
    destruct (completed (fn num)) as [v|err].
  - exists []. reflexivity.
  - exists []. reflexivity.
  - exists (t :: ts). reflexivity.
  - destruct (IH (S num) (errors ++ [err])) as [unused H].
    exists unused. cbn [timers app]. rewrite <- H. reflexivity.
Qed.

(** The promise is always settled. *)
Lemma run_settled (timeouts : list Z) :
  forall num errors, settled (run fn num timeouts errors) <> None.
Proof.
  induction timeouts as [|t ts IH]; intros num errors; rewrite run_eq;
    cbn [settled]; unfold bail_events;
    destruct (bailed (fn num)); cbn [app settled]; try discriminate;
    destruct (completed (fn num)) as [v|err]; cbn [settled];
    try discriminate.
  apply IH.
Qed.

(** A value the promise resolves with is a value some attempt returned. *)
Lemma run_resolved (timeouts : list Z) :
  forall num errors v,
    settled (run fn num timeouts errors) = Some (inl v) ->
    exists k, completed (fn k) = Returned v.
Proof.
  induction timeouts as [|t ts IH]; intros num errors v; rewrite run_eq;
    cbn [settled]; unfold bail_events;
    destruct (bailed (fn num)); cbn [app settled]; try discriminate;
    destruct (completed (fn num)) as [v'|err] eqn:E; cbn [settled];
    try discriminate; intros H.
  - exists num. congruence.
  - exists num. congruence.
  - apply IH in H. exact H.
Qed.

(** An attempt that calls [bail] rejects the promise at once, unless an
    earlier attempt settled it. *)
Lemma run_bail (timeouts : list Z) (num : nat) (errors : list error)
    (e : error) :
  bailed (fn num) = Some e ->
  settled (run fn num timeouts errors) = Some (inr (Some e))
  /\ before_settled (run fn num timeouts errors) = [Attempt num].
Proof.
  intros H. rewrite run_eq. unfold bail_events. rewrite H.
  split; reflexivity.
Qed.

(** When every attempt throws and none bails, every timeout is used and
    the promise is rejected with the main error of all the errors. *)
Lemma run_all_thrown (err : nat -> error) (timeouts : list Z) :
  forall num errors,
    (forall k, (num <= k <= num + List.length timeouts)%nat ->
               fn k = {| bailed := None; completed := Thrown (err k) |}) ->
    attempts (run fn num timeouts errors) = S (List.length timeouts)
    /\ timers (run fn num timeouts errors) = timeouts
    /\ settled (run fn num timeouts errors)
       = Some (inr (Retry.mainError
                      (errors ++ map err (seq num (S (List.length timeouts)))))).
Proof.
  induction timeouts as [|t ts IH]; intros num errors H; rewrite run_eq;
    rewrite (H num) by lia; cbn [bail_events bailed completed app].
  - repeat split.
  - destruct (IH (S num) (errors ++ [err num])) as (Ha & Ht & Hs).
    { intros k Hk. apply H. cbn [List.length]. lia. }
    repeat split.
    + change (attempts (Attempt num :: Timer t :: ?tr)) with (S (attempts tr)).
      rewrite Ha. reflexivity.
    + cbn [timers]. rewrite Ht. reflexivity.
    + cbn [settled]. rewrite Hs, <- app_assoc. reflexivity.
Qed.

Lemma schedule_bail_events (r : attempt_result A) (tr : list (event A)) :
  schedule (bail_events r ++ tr) = schedule tr.
Proof. unfold bail_events. destruct (bailed r); reflexivity. Qed.

(** The attempts are numbered from [num] on, and each attempt but the
    last is followed, before the next one, by exactly one timer: the
    timers armed are the first timeouts, in their order. *)
Lemma run_schedule (timeouts : list Z) :
  forall num errors,
    exists k,
      (k <= List.length timeouts)%nat
      /\ attempts (run fn num timeouts errors) = S k
      /\ timers (run fn num timeouts errors) = firstn k timeouts
      /\ schedule (run fn num timeouts errors)
         = failed_prefix num (firstn k timeouts) ++ [Attempt (num + k)].
Proof.
  induction timeouts as [|t ts IH]; intros num errors; rewrite run_eq;
    change (attempts (Attempt num :: ?tr)) with (S (attempts tr));
    change (timers (Attempt num :: ?tr)) with (timers tr);
    change (schedule (Attempt num :: ?tr)) with (Attempt num :: schedule tr);
    rewrite attempts_app, attempts_bail_events, timers_bail_events,
      schedule_bail_events;
    destruct (completed (fn num)) as [v|err].
  - exists 0%nat. rewrite (Nat.add_0_r num). split; [cbn; lia|repeat split].
  - exists 0%nat. rewrite (Nat.add_0_r num). split; [cbn; lia|repeat split].
  - exists 0%nat. rewrite (Nat.add_0_r num). split; [cbn; lia|repeat split].
  - destruct (IH (S num) (errors ++ [err])) as (k & Hk & Ha & Ht & Hs).
    exists (S k). cbn [List.length firstn failed_prefix app].
    change (attempts (Timer t :: ?tr)) with (attempts tr).
    change (timers (Timer t :: ?tr)) with (t :: timers tr).
    change (schedule (Timer t :: ?tr)) with (Timer t :: schedule tr).
    rewrite Ha, Ht, Hs, (Nat.add_succ_r num k). split; [lia|repeat split].
Qed.

End Retrier.

(** ** [callGithub] *)

Lemma callGithub_settled post rnd v : settled (callGithub post rnd v) <> None.
Proof. apply run_settled. Qed.

(** What [callGithub] resolves with is the body of a response that
    [axios.post] delivered with a status below 500. *)
Lemma callGithub_resolved post rnd v d :
  settled (callGithub post rnd v) = Some (inl d) ->
  exists k status, post v k = AxiosResolved status d /\ status < 500.
Proof.
  intros H. apply run_resolved in H. destruct H as [k H].
  exists k. unfold callGithub_fn, callGithub_catch in H.
  destruct (post v k) as [status b|err]; [|discriminate].
  exists status. destruct (Z.leb_spec 500 status); [discriminate|].
  cbn in H. split; [congruence|lia].
Qed.

(** C4, as the code has it.  [callGithub] calls [axios.post] at most 6
    times: once, and once more for each of the 5 retries.  Between two
    consecutive attempts exactly one delay is armed: after attempt
    [k + 1] it is the jittered timeout
    [round((random + 1) * 1000 * 2^k)], between [1000 * 2^k] and twice
    that.  When all 6 attempts fail and none is a 401, the promise is
    rejected with the main error of the 6 errors, which is the last
    error when they all carry the same message. *)
Theorem callGithub_retry_contract post rnd v :
  (forall i, 0 <= rnd i /\ rnd i < 1)%Q ->
  let tr := callGithub post rnd v in
  (attempts tr <= 6)%nat
  /\ schedule tr
     = failed_prefix 1
         (map (fun i => Retry.createTimeout i opts (rnd i))
            (seq 0 (attempts tr - 1)))
       ++ [Attempt (attempts tr)]
  /\ (forall k ms,
        nth_error (timers tr) k = Some ms ->
        ms = Retry.createTimeout k opts (rnd k)
        /\ 1000 * 2 ^ Z.of_nat k <= ms <= 2 * (1000 * 2 ^ Z.of_nat k))
  /\ (forall k,
        (S k < attempts tr)%nat ->
        nth_error (timers tr) k = Some (Retry.createTimeout k opts (rnd k)))
  /\ (forall err : nat -> error,
        (forall k, (1 <= k <= 6)%nat ->
                   callGithub_fn (post v k)
                   = {| bailed := None; completed := Thrown (err k) |}) ->
        attempts tr = 6%nat
        /\ settled tr = Some (inr (Retry.mainError (map err (seq 1 6))))
        /\ ((forall k, (1 <= k <= 6)%nat -> message (err k) = message (err 6%nat)) ->
            settled tr = Some (inr (Some (err 6%nat))))).
Proof.
  intros Hr tr.
  assert (Ht : Retry.timeouts opts rnd
               = map (fun i => Retry.createTimeout i opts (rnd i)) (seq 0 5))
    by (apply timeouts_callGithub; exact Hr).
  assert (Hl : List.length (Retry.timeouts opts rnd) = 5%nat)
    by (rewrite Ht; reflexivity).
  destruct (run_schedule (fun num => callGithub_fn (post v num))
              (Retry.timeouts opts rnd) 1 []) as (n & Hn & Ha & Hti & Hs).
  change (run (fun num => callGithub_fn (post v num)) 1
            (Retry.timeouts opts rnd) []) with tr in Ha, Hti, Hs.
  rewrite Hl in Hn.
  assert (Hfirst : firstn n (Retry.timeouts opts rnd)
                   = map (fun i => Retry.createTimeout i opts (rnd i)) (seq 0 n)).
  { rewrite Ht.
    destruct n as [|[|[|[|[|[|n]]]]]]; try reflexivity. lia. }
  rewrite Hfirst in Hti, Hs.
  assert (Hnth : forall k ms, nth_error (timers tr) k = Some ms ->
                 (k < n)%nat /\ ms = Retry.createTimeout k opts (rnd k)).
  { intros k ms Hk. rewrite Hti in Hk.
    assert (Hkn : (k < n)%nat).
    { assert (H : nth_error
                    (map (fun i => Retry.createTimeout i opts (rnd i)) (seq 0 n))
                    k <> None) by (rewrite Hk; discriminate).
      apply nth_error_Some in H. rewrite length_map, length_seq in H.
      exact H. }
    split; [exact Hkn|].
    rewrite nth_error_map, nth_error_seq in Hk.
    destruct (Nat.ltb_spec k n); [|lia].
    cbn [option_map Nat.add] in Hk. congruence. }
  split; [rewrite Ha; lia|]. split; [|split; [|split]].
  - rewrite Ha. cbn [Nat.sub]. rewrite Nat.sub_0_r. exact Hs.
  - intros k ms Hk. destruct (Hnth k ms Hk) as [Hkn ->].
    split; [reflexivity|]. apply createTimeout_bounds; [lia|apply Hr..].
  - intros k Hk. rewrite Ha in Hk. rewrite Hti, nth_error_map, nth_error_seq.
    destruct (Nat.ltb_spec k n); [reflexivity|lia].
  - intros err Hf.
    destruct (run_all_thrown (fun num => callGithub_fn (post v num)) err
                (Retry.timeouts opts rnd) 1 []) as (Ha6 & _ & Hs6).
    { intros k Hk. apply Hf. lia. }
    rewrite Hl in Ha6, Hs6. cbn [app] in Hs6.
    split; [exact Ha6|]. split; [exact Hs6|].
    intros Hm. unfold tr, callGithub, retry. fold opts. rewrite Hs6.
    change (map err (seq 1 6))
      with ([err 1%nat; err 2%nat; err 3%nat; err 4%nat; err 5%nat]
              ++ [err 6%nat]).
    rewrite (mainError_same_message (message (err 6%nat))); [reflexivity| |reflexivity].
    intros x Hx. cbn in Hx.
    repeat (destruct Hx as [Hx|Hx]; [subst x; apply Hm; lia|]).
    destruct Hx.
Qed.

Lemma callGithub_retry_contract_witness :
  let tr := callGithub (always_rejects timeout_error) half_jitter (variables None) in
  (attempts tr <= 6)%nat
  /\ schedule tr
     = [Attempt 1; Timer 1500; Attempt 2; Timer 3000; Attempt 3; Timer 6000;
        Attempt 4; Timer 12000; Attempt 5; Timer 24000; Attempt 6]
  /\ nth_error (timers tr) 2 = Some 6000
  /\ settled tr = Some (inr (Some timeout_error)).
Proof.
  intros tr.
  assert (Hr : (forall i, 0 <= half_jitter i /\ half_jitter i < 1)%Q)
    by (intros i; split; [discriminate|reflexivity]).
  destruct (callGithub_retry_contract (always_rejects timeout_error)
              half_jitter (variables None) Hr) as (Ha & Hs & Hd & Hn & He).
  split; [exact Ha|]. split; [exact Hs|].
  split; [refine (Hn 2%nat _); vm_compute; repeat constructor|].
  apply (He (fun _ => timeout_error)).
  - intros k Hk. reflexivity.
  - intros k Hk. reflexivity.
Defined.

(** The delay is computed in doubles, as node-retry does: at the draw
    2251799813685 / 2^52 the product [(random + 1) * 1000] is the double
    just above 1000.5, and the timer is 1001ms, where the exact product
    1000.4999999999998... would round to 1000. *)
Example createTimeout_in_doubles :
  Retry.createTimeout 0 opts (2251799813685 # 4503599627370496) = 1001
  /\ JS.Math_round
       ((((2251799813685 # 4503599627370496) + 1) * 1000) * 1)%Q = 1000.
Proof. split; vm_compute; reflexivity. Qed.

(** C4, the claim as stated: six failures in a row are six calls of
    [axios.post], not five; with [Math.random()] at 1/2 the first delay
    is 1500ms, not 1000ms; and after five timeouts and a 502 the error
    surfaced is the timeout, not the last error. *)
Lemma callGithub_six_attempts :
  ~ (attempts (callGithub (always_rejects timeout_error) no_jitter
                 (variables None)) <= 5)%nat
  /\ nth_error (timers (callGithub (always_rejects timeout_error) half_jitter
                          (variables None))) 0
     = Some 1500
  /\ settled (callGithub timeouts_then_502 no_jitter (variables None))
     = Some (inr (Some timeout_error))
  /\ callGithub_fn (timeouts_then_502 (variables None) 6)
     = {| bailed := None; completed := Thrown http_502 |}.
Proof.
  split; [intros H; vm_compute in H; lia|]. repeat split.
Qed.

(** An unauthorized first attempt rejects the promise with the
    unauthorized error, before any timer is armed. *)
Lemma callGithub_unauthorized_rejects post rnd v err :
  post v 1%nat = AxiosRejected err ->
  is_401 err = true ->
  settled (callGithub post rnd v) = Some (inr (Some unauthorized))
  /\ before_settled (callGithub post rnd v) = [Attempt 1].
Proof.
  intros Hp H4. apply run_bail.
  rewrite Hp. cbn [callGithub_fn callGithub_catch bailed]. rewrite H4.
  reflexivity.
Qed.

(** C7, on a network answering 401 to every request: the promise is
    rejected with the unauthorized error after the first attempt and
    before any timer, but the retrier goes on: five more attempts and
    five backoff timers follow. *)
Theorem callGithub_unauthorized_goes_on :
  let tr := callGithub (always_rejects http_401) no_jitter (variables None) in
  settled tr = Some (inr (Some unauthorized))
  /\ before_settled tr = [Attempt 1]
  /\ attempts (after_settled tr) = 5%nat
  /\ timers (after_settled tr) = [1000; 2000; 4000; 8000; 16000].
Proof. vm_compute. repeat split. Qed.

(** ** One turn of the loop *)

(** Every turn starts with a request for the page after the state's
    cursor. *)
Lemma main_body_request it st :
  exists rest,
    snd (main_body it st) = CallGithub (variables (after st)) :: rest.
Proof.
  unfold main_body. cbn [next_page after].
  destruct (settled _) as [[d|e]|]; [|eexists; reflexivity..].
  destruct (errors d); [eexists; reflexivity|].
  destruct (data d) as [p|]; [|eexists; reflexivity].
  destruct (rate_limit_wait _ _); [eexists; reflexivity|].
  destruct (handle_page _ _ _) as [[f st'] effs]. eexists; reflexivity.
Qed.

(** C1, at a page whose upsert fails: the counter stays and the driver
    sleeps 3000ms, but the cursor moves on to the page's [endCursor], and
    the next request asks for the page after it. *)
Theorem upsert_failure_advances_cursor :
  let '(f, st', effs) := main_body db_down_turn initial in
  f = Continue
  /\ collected st' = collected initial
  /\ In (Sleep AfterDbError 3000) effs
  /\ after st' = Some "Y3Vyc29yOjI="
  /\ after st' <> after initial
  /\ forall it, exists rest,
       snd (main_body it st') = CallGithub (variables (Some "Y3Vyc29yOjI=")) :: rest.
Proof.
  assert (H : main_body db_down_turn initial
              = (Continue,
                 {| collected := 0; after := Some "Y3Vyc29yOjI="; page := 1 |},
                 [CallGithub (variables None); UpsertRepos two_repos false;
                  Sleep AfterDbError 3000; Sleep Throttle 200]))
    by (vm_compute; reflexivity).
  rewrite H.
  split; [reflexivity|]. split; [reflexivity|].
  split; [right; right; left; reflexivity|].
  split; [reflexivity|]. split; [cbn; discriminate|].
  intros it.
  apply (main_body_request it
           {| collected := 0; after := Some "Y3Vyc29yOjI="; page := 1 |}).
Qed.

(** A response with GraphQL errors: the fixed pause, and the same
    state but for the page counter. *)
Lemma errors_turn it st d errs :
  settled (callGithub (post it) (random it) (variables (after st)))
  = Some (inl d) ->
  errors d = Some errs ->
  main_body it st
  = (Continue, next_page st,
     [CallGithub (variables (after st)); Sleep AfterErrors 5000]).
Proof. intros Hs He. resolved Hs. rewrite He. reflexivity. Qed.

(** A response that asks for a pause: the request, the pause, and the
    same state but for the page counter. *)
Lemma stall_pause_turn it st d pause :
  settled (callGithub (post it) (random it) (variables (after st)))
  = Some (inl d) ->
  stall_pause it d pause ->
  main_body it st
  = (Continue, next_page st, [CallGithub (variables (after st)); pause]).
Proof.
  intros Hs [[He ->]|(He & p & rl & Hp & Hr & Hl & ->)].
  - destruct (errors d) as [errs|] eqn:E; [|contradiction He; reflexivity].
    apply (errors_turn it st d errs Hs E).
  - resolved Hs. rewrite He, Hp, Hr. unfold rate_limit_wait.
    destruct (Z.leb_spec (remaining rl) 10); [reflexivity|lia].
Qed.

(** C5, as the code has it.  For every response without GraphQL errors
    whose quota snapshot has [remaining <= 10], the loop sleeps
    [max(1000, resetAt - now + 2000)] and goes back to the loop
    condition with the cursor and the counter unchanged, so the next
    request asks for the same page.  For every response with GraphQL
    errors, whatever its snapshot, the loop sleeps the fixed 5000ms
    instead, and asks for the same page again as well. *)
Theorem low_quota_waits_same_page it st d :
  settled (callGithub (post it) (random it) (variables (after st)))
  = Some (inl d) ->
  (forall p rl,
     errors d = None ->
     data d = Some p ->
     rateLimit p = Some rl ->
     remaining rl <= 10 ->
     let waitMs := Z.max 1000 (resetAt rl - now it + 2000) in
     main_body it st
     = (Continue, next_page st,
        [CallGithub (variables (after st)); Sleep RateLimit waitMs])
     /\ after (next_page st) = after st
     /\ collected (next_page st) = collected st
     /\ forall it', exists rest,
          snd (main_body it' (next_page st))
          = CallGithub (variables (after st)) :: rest)
  /\ (forall errs,
        errors d = Some errs ->
        main_body it st
        = (Continue, next_page st,
           [CallGithub (variables (after st)); Sleep AfterErrors 5000])
        /\ after (next_page st) = after st
        /\ collected (next_page st) = collected st
        /\ forall it', exists rest,
             snd (main_body it' (next_page st))
             = CallGithub (variables (after st)) :: rest).
Proof.
  intros Hs. split.
  - intros p rl He Hd Hr Hl waitMs. split; [|split; [|split]].
    + resolved Hs. rewrite He, Hd, Hr. unfold rate_limit_wait.
      destruct (Z.leb_spec (remaining rl) 10); [reflexivity|lia].
    + reflexivity.
    + reflexivity.
    + intros it'. apply (main_body_request it' (next_page st)).
  - intros errs He. split; [|split; [|split]].
    + apply (errors_turn it st d errs Hs He).
    + reflexivity.
    + reflexivity.
    + intros it'. apply (main_body_request it' (next_page st)).
Qed.

Lemma low_quota_waits_same_page_witness :
  (main_body low_quota_page_turn second_state
   = (Continue, next_page second_state,
      [CallGithub (variables (Some "Y3Vyc29yOjI=")); Sleep RateLimit 32000])
   /\ after (next_page second_state) = Some "Y3Vyc29yOjI="
   /\ collected (next_page second_state) = 2
   /\ forall it', exists rest,
        snd (main_body it' (next_page second_state))
        = CallGithub (variables (Some "Y3Vyc29yOjI=")) :: rest)
  /\ (main_body errors_page_turn second_state
      = (Continue, next_page second_state,
         [CallGithub (variables (Some "Y3Vyc29yOjI=")); Sleep AfterErrors 5000])
      /\ after (next_page second_state) = Some "Y3Vyc29yOjI="
      /\ collected (next_page second_state) = 2
      /\ forall it', exists rest,
           snd (main_body it' (next_page second_state))
           = CallGithub (variables (Some "Y3Vyc29yOjI=")) :: rest).
Proof.
  split.
  - refine (proj1 (low_quota_waits_same_page low_quota_page_turn second_state
                     low_quota_page _)
              {| rateLimit := Some low_quota;
                 search := Some (a_search two_edges (Some "Y3Vyc29yOjQ=") true) |}
              low_quota _ _ _ _).
    + vm_compute. reflexivity.
    + reflexivity.
    + reflexivity.
    + reflexivity.
    + vm_compute. discriminate.
  - refine (proj2 (low_quota_waits_same_page errors_page_turn second_state
                     errors_page _)
              ["Something went wrong while executing your query"] _).
    + vm_compute. reflexivity.
    + reflexivity.
Defined.

(** C5, the claim as stated: a response that carries GraphQL errors
    next to a snapshot with 5 calls left is answered by the fixed 5000ms
    pause of line 109, not by the governor's wait (32000ms here). *)
Lemma errors_precede_low_quota :
  exists d,
    settled (callGithub (post errors_low_quota_turn)
               (random errors_low_quota_turn) (variables None))
    = Some (inl d)
    /\ snapshot d = Some low_quota
    /\ remaining low_quota <= 10
    /\ Z.max 1000 (resetAt low_quota - now errors_low_quota_turn + 2000) = 32000
    /\ main_body errors_low_quota_turn initial
       = (Continue, next_page initial,
          [CallGithub (variables None); Sleep AfterErrors 5000]).
Proof.
  exists {| errors := Some ["Something went wrong while executing your query"];
            data := Some {| rateLimit := Some low_quota; search := None |} |}.
  split; [vm_compute; reflexivity|]. split; [reflexivity|].
  split; [vm_compute; discriminate|]. split; [reflexivity|].
  vm_compute. reflexivity.
Qed.

(** C6, as the code has it.  For every response without GraphQL errors
    whose quota is above the threshold (or absent) and that carries no
    record envelope, the turn ends in [break] right after the request:
    nothing is persisted, the cursor and the counter stay, whatever
    [hasNextPage] says; the loop is over.  A response with GraphQL
    errors, or with a snapshot at or below the threshold, does not end
    the loop, whether its page is empty or not: the turn is the request
    and the pause, and the loop goes on with the same cursor and
    counter, so that the same page is asked for again. *)
Theorem empty_page_breaks TARGET_REPOS it st d rest :
  settled (callGithub (post it) (random it) (variables (after st)))
  = Some (inl d) ->
  (forall p,
     errors d = None ->
     data d = Some p ->
     (forall rl, rateLimit p = Some rl -> 10 < remaining rl) ->
     envelopes p = [] ->
     main_body it st
     = (Break, next_page st, [CallGithub (variables (after st))])
     /\ (collected st < TARGET_REPOS ->
         loop TARGET_REPOS (it :: rest) st
         = Some (Broke, next_page st, [CallGithub (variables (after st))])))
  /\ (forall pause,
        stall_pause it d pause ->
        main_body it st
        = (Continue, next_page st, [CallGithub (variables (after st)); pause])
        /\ (collected st < TARGET_REPOS ->
            loop TARGET_REPOS (it :: rest) st
            = prepend [CallGithub (variables (after st)); pause]
                (loop TARGET_REPOS rest (next_page st)))
        /\ after (next_page st) = after st
        /\ collected (next_page st) = collected st
        /\ forall it', exists rest',
             snd (main_body it' (next_page st))
             = CallGithub (variables (after st)) :: rest').
Proof.
  intros Hs. split.
  - intros p He Hd Hq Hz.
    assert (Hb : main_body it st
                 = (Break, next_page st, [CallGithub (variables (after st))])).
    { resolved Hs. rewrite He, Hd.
      assert (Hw : rate_limit_wait (rateLimit p) (now it) = None).
      { unfold rate_limit_wait.
        destruct (rateLimit p) as [rl|]; [|reflexivity].
        specialize (Hq rl eq_refl).
        destruct (Z.leb_spec (remaining rl) 10); [lia|reflexivity]. }
      rewrite Hw. unfold envelopes in Hz. unfold handle_page.
      destruct (search p) as [s|]; [|reflexivity].
      destruct (edges s) as [[|e es]|]; [reflexivity|discriminate|reflexivity]. }
    split; [exact Hb|].
    intros Hc. cbn [loop]. rewrite Hb.
    destruct (Z.ltb_spec (collected st) TARGET_REPOS); [reflexivity|lia].
  - intros pause Hp.
    pose proof (stall_pause_turn it st d pause Hs Hp) as Hb.
    split; [exact Hb|]. split; [|split; [|split]].
    + intros Hc. cbn [loop]. rewrite Hb.
      destruct (Z.ltb_spec (collected st) TARGET_REPOS); [|lia].
      destruct (loop TARGET_REPOS rest (next_page st)) as [[[x s'] e]|];
        reflexivity.
    + reflexivity.
    + reflexivity.
    + intros it'. apply (main_body_request it' (next_page st)).
Qed.

Lemma empty_page_breaks_witness :
  loop 100000
    [answers {| errors := None;
                data := Some {| rateLimit := None;
                                search := Some (a_search [] (Some "Y3Vyc29yOjQ=") true) |} |}
             0 true]
    second_state
  = Some (Broke, next_page second_state,
          [CallGithub (variables (Some "Y3Vyc29yOjI="))])
  /\ loop 100000 [empty_low_quota_turn; fails timeout_error] second_state
     = Some (Broke, next_page (next_page second_state),
             [CallGithub (variables (Some "Y3Vyc29yOjI="));
              Sleep RateLimit 32000;
              CallGithub (variables (Some "Y3Vyc29yOjI="))]).
Proof.
  split.
  - refine (proj2 (proj1 (empty_page_breaks 100000
                            (answers {| errors := None;
                                        data := Some {| rateLimit := None;
                                                        search := Some (a_search [] (Some "Y3Vyc29yOjQ=") true) |} |}
                                     0 true)
                            second_state _ [] _)
                     {| rateLimit := None;
                        search := Some (a_search [] (Some "Y3Vyc29yOjQ=") true) |}
                     _ _ _ _) _).
    + vm_compute. reflexivity.
    + reflexivity.
    + reflexivity.
    + intros rl H. discriminate H.
    + reflexivity.
    + vm_compute. reflexivity.
  - assert (Hp : stall_pause empty_low_quota_turn
                   {| errors := None;
                      data := Some {| rateLimit := Some low_quota;
                                      search := Some (a_search [] None false) |} |}
                   (Sleep RateLimit 32000)).
    { right. split; [reflexivity|].
      exists {| rateLimit := Some low_quota;
                search := Some (a_search [] None false) |}, low_quota.
      repeat split. vm_compute. discriminate. }
    rewrite (proj1 (proj2 (proj2 (empty_page_breaks 100000 empty_low_quota_turn
                                    second_state _ [fails timeout_error]
                                    ltac:(vm_compute; reflexivity))
                             (Sleep RateLimit 32000) Hp))
               ltac:(vm_compute; reflexivity)).
    vm_compute. reflexivity.
Defined.

(** C6, the claim as stated: an empty page that comes with a low quota
    snapshot does not end the loop; the driver sleeps and asks again. *)
Lemma empty_page_low_quota_goes_on :
  exists d,
    settled (callGithub (post empty_low_quota_turn)
               (random empty_low_quota_turn) (variables None))
    = Some (inl d)
    /\ records d = []
    /\ main_body empty_low_quota_turn initial
       = (Continue, next_page initial,
          [CallGithub (variables None); Sleep RateLimit 32000]).
Proof.
  exists {| errors := None;
            data := Some {| rateLimit := Some low_quota;
                            search := Some (a_search [] None false) |} |}.
  split; [vm_compute; reflexivity|]. split; [reflexivity|].
  vm_compute. reflexivity.
Qed.

Lemma handle_page_pauses it st s ms :
  ~ In (Sleep RateLimit ms) (snd (handle_page it st s))
  /\ ~ In (Sleep AfterErrors ms) (snd (handle_page it st s)).
Proof.
  unfold handle_page.
  destruct s as [s|]; [|split; intros []].
  destruct (edges s) as [[|e es]|]; [split; intros []| |split; intros []].
  destruct (JS.Array_map normalize (e :: es)) as [repos|];
    [|split; intros []].
  destruct (upsertRepos it _), (hasNextPage (pageInfo s)),
    (JS.truthy (endCursor (pageInfo s)));
    cbn; split; intros H;
    repeat (destruct H as [H|H]; [discriminate H|]); exact H.
Qed.

(** C9, as the code has it.  For every response without GraphQL errors
    whose payload has no quota snapshot, the turn is the request followed
    by the handling of the page, with no pause of the governor (nor the
    5000ms pause) in between or after.  A response with GraphQL errors,
    with or without snapshot, is not processed: the turn is the request
    and the 5000ms pause, nothing is persisted, and the same page is
    asked for again. *)
Theorem no_snapshot_proceeds it st d :
  settled (callGithub (post it) (random it) (variables (after st)))
  = Some (inl d) ->
  (forall p,
     errors d = None ->
     data d = Some p ->
     rateLimit p = None ->
     main_body it st
     = (let '(f, st', effs) := handle_page it (next_page st) (search p) in
        (f, st', CallGithub (variables (after st)) :: effs))
     /\ forall ms,
          ~ In (Sleep RateLimit ms) (snd (main_body it st))
          /\ ~ In (Sleep AfterErrors ms) (snd (main_body it st)))
  /\ (forall errs,
        errors d = Some errs ->
        main_body it st
        = (Continue, next_page st,
           [CallGithub (variables (after st)); Sleep AfterErrors 5000])
        /\ after (next_page st) = after st
        /\ collected (next_page st) = collected st
        /\ forall it', exists rest,
             snd (main_body it' (next_page st))
             = CallGithub (variables (after st)) :: rest).
Proof.
  intros Hs. split.
  - intros p He Hd Hr.
    assert (Hb : main_body it st
                 = (let '(f, st', effs) :=
                      handle_page it (next_page st) (search p) in
                    (f, st', CallGithub (variables (after st)) :: effs))).
    { resolved Hs. rewrite He, Hd, Hr. reflexivity. }
    split; [exact Hb|].
    intros ms. rewrite Hb.
    destruct (handle_page_pauses it (next_page st) (search p) ms) as [H1 H2].
    destruct (handle_page it (next_page st) (search p)) as [[f st'] effs].
    cbn [snd] in *.
    split; intros [H|H]; try discriminate H; auto.
  - intros errs He. split; [|split; [|split]].
    + apply (errors_turn it st d errs Hs He).
    + reflexivity.
    + reflexivity.
    + intros it'. apply (main_body_request it' (next_page st)).
Qed.

Lemma no_snapshot_proceeds_witness :
  main_body db_down_turn initial
  = (Continue,
     {| collected := 0; after := Some "Y3Vyc29yOjI="; page := 1 |},
     [CallGithub (variables None);
      UpsertRepos two_repos false;
      Sleep AfterDbError 3000; Sleep Throttle 200])
  /\ main_body errors_page_turn second_state
     = (Continue, next_page second_state,
        [CallGithub (variables (Some "Y3Vyc29yOjI=")); Sleep AfterErrors 5000]).
Proof.
  split.
  - refine (proj1 (proj1 (no_snapshot_proceeds db_down_turn initial
                            (a_body "Y3Vyc29yOjI=") _)
                     (a_payload "Y3Vyc29yOjI=") _ _ _)).
    + vm_compute. reflexivity.
    + reflexivity.
    + reflexivity.
    + reflexivity.
  - refine (proj1 (proj2 (no_snapshot_proceeds errors_page_turn second_state
                            errors_page _)
                     ["Something went wrong while executing your query"] _)).
    + vm_compute. reflexivity.
    + reflexivity.
Defined.

(** C9, the claim as stated: a response without snapshot that carries
    GraphQL errors is not processed; the loop pauses 5000ms and asks
    again, although the payload has records. *)
Lemma errors_precede_missing_snapshot :
  exists d,
    settled (callGithub (post errors_no_snapshot_turn)
               (random errors_no_snapshot_turn) (variables None))
    = Some (inl d)
    /\ snapshot d = None
    /\ records d = two_edges
    /\ main_body errors_no_snapshot_turn initial
       = (Continue, next_page initial,
          [CallGithub (variables None); Sleep AfterErrors 5000]).
Proof.
  exists {| errors := Some ["Something went wrong while executing your query"];
            data := Some (a_payload "Y3Vyc29yOjI=") |}.
  split; [vm_compute; reflexivity|]. split; [reflexivity|].
  split; [reflexivity|]. vm_compute. reflexivity.
Qed.

(** ** The loop and the process *)

Lemma normalize_none (e : option edge) : normalize e = None <-> ~ has_node e.
Proof.
  unfold normalize, has_node. destruct e as [ed|].
  - destruct (node ed) as [n|] eqn:E; split.
    + discriminate.
    + intros H. contradiction H. exists ed, n. auto.
    + intros _ (ed' & n & H1 & H2). injection H1 as <-. congruence.
    + reflexivity.
  - split; [|reflexivity]. intros _ (ed & n & H & _). discriminate H.
Qed.

Lemma has_node_dec (e : option edge) : {has_node e} + {~ has_node e}.
Proof.
  destruct e as [[[n|]]|].
  - left. exists {| node := Some n |}, n. auto.
  - right. intros (ed & m & H1 & H2). injection H1 as <-. discriminate H2.
  - right. intros (ed & m & H1 & _). discriminate H1.
Qed.

(** The [map] of line 133 throws exactly when some edge or node is
    null; otherwise it gives one record per envelope. *)
Lemma Array_map_normalize_none (es : list (option edge)) :
  JS.Array_map normalize es = None <-> ~ Forall has_node es.
Proof.
  induction es as [|e es IH]; cbn [JS.Array_map].
  - split; [discriminate|]. intros H. contradiction H. constructor.
  - destruct (normalize e) as [r|] eqn:E.
    + assert (He : has_node e).
      { destruct e as [[[n|]]|]; try discriminate E. exists {| node := Some n |}, n. auto. }
      destruct (JS.Array_map normalize es) as [rs|]; split.
      * discriminate.
      * intros H. contradiction H. constructor; [exact He|].
        destruct (Forall_dec has_node has_node_dec es) as [Hf|Hf];
          [exact Hf|].
        apply (proj2 IH) in Hf. discriminate Hf.
      * intros _ Hf. inversion Hf as [|? ? _ Hes]; subst.
        apply (proj1 IH); [reflexivity|exact Hes].
      * reflexivity.
    + split; [|reflexivity]. intros _ Hf. inversion Hf as [|? ? He _]; subst.
      apply (proj1 (normalize_none e)); assumption.
Qed.

Lemma Array_map_length {A B : Type} (f : A -> option B) (l : list A) :
  forall bs, JS.Array_map f l = Some bs -> List.length bs = List.length l.
Proof.
  induction l as [|a r IH]; intros bs; cbn [JS.Array_map].
  - intros H; injection H as <-. reflexivity.
  - destruct (f a); [|discriminate].
    destruct (JS.Array_map f r) as [rs|]; [|discriminate].
    intros H; injection H as <-. cbn [List.length]. rewrite (IH rs eq_refl).
    reflexivity.
Qed.

(** The handling of a page never waits for a promise that is not
    settled, and it throws exactly when some edge or node is null. *)
Lemma handle_page_flow it st (p : payload) :
  fst (fst (handle_page it st (search p))) <> Pending
  /\ (fst (fst (handle_page it st (search p))) = Uncaught
      <-> ~ Forall has_node (envelopes p))
  /\ (fst (fst (handle_page it st (search p))) = Uncaught ->
      handle_page it st (search p) = (Uncaught, st, [])).
Proof.
  unfold handle_page, envelopes.
  destruct (search p) as [s|];
    [|cbn; repeat split; try discriminate; intros H; contradiction H; constructor].
  destruct (edges s) as [[|e es]|]; cbn [JS.nullish];
    try (cbn; repeat split; try discriminate;
         intros H; contradiction H; constructor).
  pose proof (Array_map_normalize_none (e :: es)) as Hn.
  destruct (JS.Array_map normalize (e :: es)) as [repos|].
  - assert (Hf : ~ ~ Forall has_node (e :: es)).
    { intros H. apply (proj2 Hn) in H. discriminate H. }
    destruct (hasNextPage (pageInfo s)), (JS.truthy (endCursor (pageInfo s)));
      cbn; repeat split; try discriminate; intros H; contradiction (Hf H).
  - cbn. repeat split; try discriminate. intros _. apply Hn. reflexivity.
Qed.

Lemma handle_page_in_loop it st s :
  forallb in_loop (snd (handle_page it st s)) = true.
Proof.
  unfold handle_page.
  destruct s as [s|]; [|reflexivity].
  destruct (edges s) as [[|e es]|]; try reflexivity.
  destruct (JS.Array_map normalize (e :: es)); [|reflexivity].
  destruct (upsertRepos it _), (hasNextPage (pageInfo s)),
    (JS.truthy (endCursor (pageInfo s))); reflexivity.
Qed.

(** The [await] of line 100 always returns. *)
Lemma main_body_not_pending it st : fst (fst (main_body it st)) <> Pending.
Proof.
  unfold main_body.
  pose proof (callGithub_settled (post it) (random it)
                (variables (after (next_page st)))) as Hs.
  destruct (settled _) as [[d|e]|]; [|discriminate|contradiction].
  destruct (errors d); [discriminate|].
  destruct (data d) as [p|]; [|discriminate].
  destruct (rate_limit_wait _ _); [discriminate|].
  pose proof (proj1 (handle_page_flow it (next_page st) p)) as H.
  destruct (handle_page _ _ _) as [[f st'] effs]. exact H.
Qed.

(** A turn neither sets up nor tears down the storage. *)
Lemma main_body_in_loop it st :
  forallb in_loop (snd (main_body it st)) = true.
Proof.
  unfold main_body.
  destruct (settled _) as [[d|e]|]; try reflexivity.
  destruct (errors d); [reflexivity|].
  destruct (data d) as [p|]; [|reflexivity].
  destruct (rate_limit_wait _ _); [reflexivity|].
  pose proof (handle_page_in_loop it (next_page st) (search p)) as H.
  destruct (handle_page _ _ _) as [[f st'] effs]. exact H.
Qed.

Lemma rate_limit_wait_none rl t :
  rate_limit_wait rl t = None <-> (forall r, rl = Some r -> 10 < remaining r).
Proof.
  unfold rate_limit_wait. destruct rl as [r|].
  - destruct (Z.leb_spec (remaining r) 10) as [Hle|Hgt]; split.
    + discriminate.
    + intros Hr. specialize (Hr r eq_refl). lia.
    + intros _ r' Hr. injection Hr as <-. exact Hgt.
    + reflexivity.
  - split; [intros _ r Hr; discriminate Hr|reflexivity].
Qed.

(** An exception escapes a turn exactly when the turn throws: at line
    114 on a body without [data], or in the [map] of line 133. *)
Lemma main_body_throws it st :
  (fst (fst (main_body it st)) = Uncaught <-> turn_throws it st)
  /\ (turn_throws it st ->
      main_body it st
      = (Uncaught, next_page st, [CallGithub (variables (after st))])).
Proof.
  assert (Hfwd : fst (fst (main_body it st)) = Uncaught -> turn_throws it st).
  { unfold main_body, turn_throws. cbn [next_page after].
    destruct (settled _) as [[d|e]|] eqn:Hs; try discriminate.
    destruct (errors d) eqn:He; [discriminate|].
    destruct (data d) as [p|] eqn:Hd.
    - destruct (rate_limit_wait _ _) eqn:Hw; [discriminate|].
      pose proof (handle_page_flow it (next_page st) p) as (_ & Hu & _).
      change {| collected := collected st; after := after st;
                page := page st + 1 |} with (next_page st).
      destruct (handle_page _ _ _) as [[f st'] effs]. cbn [fst] in *.
      intros Hf. exists d. split; [reflexivity|]. split; [exact He|].
      right. exists p. split; [exact Hd|].
      split; [apply (rate_limit_wait_none _ (now it)); exact Hw|].
      apply Hu. exact Hf.
    - intros _. exists d. auto. }
  assert (Hbwd : turn_throws it st ->
                 main_body it st
                 = (Uncaught, next_page st, [CallGithub (variables (after st))])).
  { intros (d & Hs & He & Hd). resolved Hs. rewrite He.
    destruct Hd as [Hd|(p & Hd & Hq & Hn)]; rewrite Hd; [reflexivity|].
    rewrite (proj2 (rate_limit_wait_none _ (now it)) Hq).
    pose proof (handle_page_flow it (next_page st) p) as (_ & Hu & Hr).
    change {| collected := collected st; after := after st;
              page := page st + 1 |} with (next_page st).
    rewrite (Hr (proj2 Hu Hn)). reflexivity. }
  split; [split; [exact Hfwd|]|exact Hbwd].
  intros H. rewrite (Hbwd H). reflexivity.
Qed.

Lemma loop_in_loop TARGET_REPOS script :
  forall st x st' effs,
    loop TARGET_REPOS script st = Some (x, st', effs) ->
    forallb in_loop effs = true.
Proof.
  induction script as [|it rest IH]; intros st x st' effs; cbn [loop];
    destruct (collected st <? TARGET_REPOS); try discriminate;
    try (intros H; injection H as <- <- <-; reflexivity).
  pose proof (main_body_in_loop it st) as Hb.
  destruct (main_body it st) as [[[| | |] st1] effs1]; cbn [snd] in Hb;
    try discriminate.
  - destruct (loop TARGET_REPOS rest st1) as [[[x2 st2] effs2]|] eqn:Hl;
      [|discriminate].
    intros H; injection H as <- <- <-.
    rewrite forallb_app, Hb. exact (IH _ _ _ _ Hl).
  - intros H; injection H as <- <- <-. exact Hb.
  - intros H; injection H as <- <- <-. exact Hb.
Qed.

(** After turns that all go back to the loop condition, the loop goes
    on with the rest of the script from the state they lead to. *)
Lemma loop_advance TARGET_REPOS pre :
  forall st st' effs rest,
    advance TARGET_REPOS pre st = Some (st', effs) ->
    loop TARGET_REPOS (pre ++ rest) st
    = prepend effs (loop TARGET_REPOS rest st').
Proof.
  induction pre as [|it pre IH]; intros st st' effs rest; cbn [advance app].
  - intros H; injection H as <- <-.
    destruct (loop TARGET_REPOS rest st) as [[[x s] e]|]; reflexivity.
  - cbn [loop]. destruct (collected st <? TARGET_REPOS); [|discriminate].
    destruct (main_body it st) as [[[| | |] st1] effs1]; try discriminate.
    destruct (advance TARGET_REPOS pre st1) as [[st2 effs2]|] eqn:Ha;
      [|discriminate].
    intros H; injection H as <- <-.
    rewrite (IH st1 st2 effs2 rest Ha).
    destruct (loop TARGET_REPOS rest st2) as [[[x s] e]|]; cbn [prepend];
      [|reflexivity].
    rewrite app_assoc. reflexivity.
Qed.

(** The loop is left by an exception exactly when a turn that is run
    throws. *)
Lemma loop_escaped TARGET_REPOS script :
  forall st,
    (exists st' effs, loop TARGET_REPOS script st = Some (Escaped, st', effs))
    <-> (exists pre it rest stk effsk,
           script = pre ++ it :: rest
           /\ advance TARGET_REPOS pre st = Some (stk, effsk)
           /\ collected stk < TARGET_REPOS
           /\ turn_throws it stk).
Proof.
  intros st. split.
  - revert st. induction script as [|it rest IH]; intros st (st' & effs & H);
      cbn [loop] in H;
      destruct (Z.ltb_spec (collected st) TARGET_REPOS) as [Hlt|Hge];
      try discriminate.
    pose proof (proj1 (proj1 (main_body_throws it st))) as Hb.
    destruct (main_body it st) as [[[| | |] st1] effs1] eqn:Eb;
      cbn [fst] in Hb; try discriminate.
    + destruct (loop TARGET_REPOS rest st1) as [[[x2 st2] effs2]|] eqn:Hl;
        [|discriminate].
      injection H as -> <- <-.
      destruct (IH st1 (ex_intro _ st2 (ex_intro _ effs2 Hl)))
        as (pre & i & r & stk & effsk & -> & Ha & Hc & Ht).
      exists (it :: pre), i, r, stk, (effs1 ++ effsk).
      split; [reflexivity|]. split; [|split; assumption].
      cbn [advance]. destruct (Z.ltb_spec (collected st) TARGET_REPOS); [|lia].
      rewrite Eb, Ha. reflexivity.
    + exists [], it, rest, st, []. split; [reflexivity|].
      split; [reflexivity|]. split; [exact Hlt|]. apply Hb. reflexivity.
  - intros (pre & it & rest & stk & effsk & -> & Ha & Hc & Ht).
    rewrite (loop_advance _ _ _ _ _ (it :: rest) Ha). cbn [loop].
    destruct (Z.ltb_spec (collected stk) TARGET_REPOS); [|lia].
    rewrite (proj2 (main_body_throws it stk) Ht). cbn [prepend].
    eexists. eexists. reflexivity.
Qed.

Lemma not_in_loop_ClosePool effs :
  forallb in_loop effs = true -> ~ In ClosePool effs.
Proof.
  intros H Hin. rewrite forallb_forall in H.
  specialize (H _ Hin). discriminate H.
Qed.

(** C2, as the code has it.  A run ends with exit code 0 or 1.  The
    code is non-zero exactly when an exception escapes [main]:
    [ensureSchema] or [closePool] rejects, or a turn that is run throws
    a [TypeError] (a body with neither [errors] nor [data], or a page
    with a null edge or node).  A turn in which [callGithub] is rejected,
    for an unauthorized failure or after the last retry, ends the loop by
    [break]: the pool is closed, and the exit code is 0 when [closePool]
    resolves.  No failure of [callGithub], no GraphQL error, no low quota
    and no failure of [upsertRepos] makes the exit code non-zero. *)
Theorem main_exit_code TARGET_REPOS w r :
  main TARGET_REPOS w = Some r ->
  (exit_code r = 0 \/ exit_code r = 1)
  /\ (exit_code r <> 0
      <-> ensureSchema w = false \/ closePool w = false
          \/ exists pre it st effs,
               runs_turn TARGET_REPOS (script w) pre it st effs
               /\ turn_throws it st)
  /\ (forall pre it st effs e,
        ensureSchema w = true ->
        runs_turn TARGET_REPOS (script w) pre it st effs ->
        settled (callGithub (post it) (random it) (variables (after st)))
        = Some (inr e) ->
        trace r
        = EnsureSchema :: effs ++ [CallGithub (variables (after st)); ClosePool]
        /\ final r = next_page st
        /\ exit_code r = (if closePool w then 0 else 1)).
Proof.
  intros Hm. split; [|split].
  - unfold main in Hm. destruct (ensureSchema w); cbn [negb] in Hm.
    + destruct (loop TARGET_REPOS (script w) initial) as [[[x st] effs]|];
        [|discriminate].
      destruct x; injection Hm as <-; cbn [exit_code];
        destruct (closePool w); auto.
    + injection Hm as <-. auto.
  - pose proof (loop_escaped TARGET_REPOS (script w) initial) as Hesc.
    unfold main in Hm. destruct (ensureSchema w) eqn:Hes; cbn [negb] in Hm.
    + destruct (loop TARGET_REPOS (script w) initial) as [[[x st] effs]|] eqn:Hl;
        [|discriminate].
      assert (Hx : x = Escaped
                   <-> exists pre it st0 effs0,
                         runs_turn TARGET_REPOS (script w) pre it st0 effs0
                         /\ turn_throws it st0).
      { split.
        - intros ->.
          destruct (proj1 Hesc (ex_intro _ st (ex_intro _ effs eq_refl)))
            as (pre & it & rest & stk & effsk & Hscr & Ha & Hc & Ht).
          exists pre, it, stk, effsk. split; [|exact Ht].
          split; [exists rest; exact Hscr|]. split; assumption.
        - intros (pre & it & st0 & effs0 & ((rest & Hscr) & Ha & Hc) & Ht).
          destruct (proj2 Hesc) as (st' & effs' & H').
          { exists pre, it, rest, st0, effs0. auto. }
          congruence. }
      destruct x; injection Hm as <-; cbn [exit_code];
        destruct (closePool w) eqn:Hcp; split;
        try (intros H; contradiction H; reflexivity);
        try (intros _; auto; fail);
        try discriminate;
        try (intros _; right; right; apply Hx; reflexivity);
        intros [H|[H|H]]; try discriminate H;
        apply Hx in H; discriminate H.
    + injection Hm as <-. cbn [exit_code]. split; [auto|discriminate].
  - intros pre it st effs e Hes ((rest & Hscr) & Ha & Hc) Hs.
    unfold main in Hm. rewrite Hes in Hm. cbn [negb] in Hm.
    rewrite Hscr, (loop_advance _ _ _ _ _ (it :: rest) Ha) in Hm.
    cbn [loop] in Hm.
    destruct (Z.ltb_spec (collected st) TARGET_REPOS); [|lia].
    unfold main_body in Hm. cbn [next_page after] in Hm. rewrite Hs in Hm.
    cbn [prepend] in Hm. injection Hm as <-. cbn [trace final exit_code].
    rewrite <- app_assoc. repeat split.
Qed.

Lemma main_exit_code_witness :
  let r := {| trace := [EnsureSchema; CallGithub (variables None);
                        UpsertRepos two_repos true; Sleep Throttle 200;
                        CallGithub (variables (Some "Y3Vyc29yOjI="));
                        ClosePool];
              exit_code := 0;
              final := next_page second_state |} in
  (exit_code r = 0 \/ exit_code r = 1)
  /\ (trace r
      = EnsureSchema
          :: [CallGithub (variables None); UpsertRepos two_repos true;
              Sleep Throttle 200]
          ++ [CallGithub (variables (after second_state)); ClosePool]
      /\ final r = next_page second_state
      /\ exit_code r = 0).
Proof.
  intros r.
  assert (Hm : main 100000 abort_after_page_world = Some r)
    by (vm_compute; reflexivity).
  destruct (main_exit_code 100000 abort_after_page_world r Hm)
    as (H1 & _ & H3).
  split; [exact H1|].
  refine (H3 [answers (a_body "Y3Vyc29yOjI=") 0 true] (fails http_401)
            second_state
            [CallGithub (variables None); UpsertRepos two_repos true;
             Sleep Throttle 200]
            (Some unauthorized) _ _ _).
  - reflexivity.
  - split; [exists []; reflexivity|].
    split; [vm_compute; reflexivity|vm_compute; reflexivity].
  - vm_compute. reflexivity.
Defined.

(** C2, the claim as stated: a crawl aborted by an unauthorized failure,
    and one aborted after the last retry on a dead network, both leave
    the loop by [break], close the pool and end with exit code 0. *)
Lemma fatal_transport_failure_exits_0 :
  settled (callGithub (always_rejects http_401) no_jitter (variables None))
  = Some (inr (Some unauthorized))
  /\ main 100000 unauthorized_world
     = Some {| trace := [EnsureSchema; CallGithub (variables None); ClosePool];
               exit_code := 0;
               final := next_page initial |}
  /\ settled (callGithub (always_rejects timeout_error) no_jitter (variables None))
     = Some (inr (Some timeout_error))
  /\ main 100000 dead_network_world
     = Some {| trace := [EnsureSchema; CallGithub (variables None); ClosePool];
               exit_code := 0;
               final := next_page initial |}.
Proof. vm_compute. repeat split. Qed.

(** C3, as the code has it.  When no exception escapes [main] before
    line 171, [closePool] is called once, as the last step.  When one
    does ([ensureSchema] rejects, a body has neither [errors] nor
    [data], or a page carries a null edge or node), the process exits
    with code 1 and [closePool] is never called. *)
Theorem main_closePool TARGET_REPOS w r :
  main TARGET_REPOS w = Some r ->
  if escapes TARGET_REPOS w
  then ~ In ClosePool (trace r) /\ exit_code r = 1
  else exists effs, trace r = effs ++ [ClosePool] /\ ~ In ClosePool effs.
Proof.
  unfold main, escapes.
  destruct (ensureSchema w) eqn:Hes; cbn [negb orb].
  - destruct (loop TARGET_REPOS (script w) initial) as [[[x st] effs]|] eqn:Hl;
      [|discriminate].
    pose proof (not_in_loop_ClosePool _ (loop_in_loop _ _ _ _ _ _ Hl)) as Hn.
    destruct x; intros H; injection H as <-; cbn [trace exit_code].
    + exists (EnsureSchema :: effs). split; [reflexivity|].
      intros [H|H]; [discriminate H|exact (Hn H)].
    + exists (EnsureSchema :: effs). split; [reflexivity|].
      intros [H|H]; [discriminate H|exact (Hn H)].
    + split; [|reflexivity].
      intros [H|H]; [discriminate H|exact (Hn H)].
  - intros H; injection H as <-. cbn [trace exit_code].
    split; [|reflexivity]. intros [H|[]]. discriminate H.
Qed.

Lemma main_closePool_witness :
  let r := {| trace := [EnsureSchema; CallGithub (variables None); ClosePool];
              exit_code := 0;
              final := next_page initial |} in
  exists effs, trace r = effs ++ [ClosePool] /\ ~ In ClosePool effs.
Proof.
  intros r. apply (main_closePool 100000 unauthorized_world r).
  vm_compute. reflexivity.
Defined.

(** C3, the claim as stated: when [ensureSchema] rejects, and when a
    response body has neither [errors] nor [data], the process ends with
    exit code 1 and [closePool] has not been called. *)
Lemma uncaught_exception_skips_closePool :
  (exists r, main 100000 no_schema_world = Some r
             /\ exit_code r = 1 /\ ~ In ClosePool (trace r))
  /\ (exists r, main 100000 empty_body_world = Some r
                /\ exit_code r = 1 /\ ~ In ClosePool (trace r)).
Proof.
  split.
  - exists {| trace := [EnsureSchema]; exit_code := 1; final := initial |}.
    split; [vm_compute; reflexivity|]. split; [reflexivity|].
    cbn [trace]. intros [H|[]]. discriminate H.
  - exists {| trace := [EnsureSchema; CallGithub (variables None)];
              exit_code := 1; final := next_page initial |}.
    split; [vm_compute; reflexivity|]. split; [reflexivity|].
    cbn [trace]. intros [H|[H|[]]]; discriminate H.
Qed.

(** ** The counter *)

Lemma handle_page_collected it st s :
  let st' := snd (fst (handle_page it st s)) in
  collected st <= collected st'
  <= collected st
     + Z.of_nat (List.length (match s with
                              | Some s => JS.nullish (edges s) []
                              | None => []
                              end)).
Proof.
  unfold handle_page.
  destruct s as [s|]; [|cbn; lia].
  destruct (edges s) as [[|e es]|]; try (cbn; lia).
  cbn [JS.nullish].
  pose proof (Array_map_length normalize (e :: es)) as Hlen.
  destruct (JS.Array_map normalize (e :: es)) as [repos|]; [|cbn; lia].
  specialize (Hlen repos eq_refl).
  destruct (upsertRepos it _), (hasNextPage (pageInfo s)),
    (JS.truthy (endCursor (pageInfo s)));
    cbn [negb fst snd collected]; lia.
Qed.

(** A turn adds at most one page to the counter. *)
Lemma main_body_collected it st :
  (forall v k status b,
     post it v k = AxiosResolved status b ->
     Z.of_nat (List.length (records b)) <= PAGE_SIZE) ->
  let st' := snd (fst (main_body it st)) in
  collected st <= collected st' <= collected st + PAGE_SIZE.
Proof.
  intros Hp. unfold main_body, PAGE_SIZE.
  destruct (settled _) as [[d|e]|] eqn:Hs; try (cbn; lia).
  destruct (errors d); [cbn; lia|].
  destruct (data d) as [p|] eqn:Hd; [|cbn; lia].
  destruct (rate_limit_wait _ _); [cbn; lia|].
  apply callGithub_resolved in Hs. destruct Hs as (k & status & Hk & _).
  apply Hp in Hk. unfold records in Hk. rewrite Hd in Hk.
  unfold envelopes, PAGE_SIZE in Hk.
  pose proof (handle_page_collected it (next_page st) (search p)) as H.
  destruct (handle_page _ _ _) as [[f st'] effs].
  cbn [fst snd next_page collected] in *. lia.
Qed.

Lemma loop_collected TARGET_REPOS script :
  within_page_size script ->
  forall st x st' effs,
    collected st < TARGET_REPOS + PAGE_SIZE ->
    loop TARGET_REPOS script st = Some (x, st', effs) ->
    collected st' < TARGET_REPOS + PAGE_SIZE
    /\ (x = TargetReached -> TARGET_REPOS <= collected st').
Proof.
  induction script as [|it rest IH]; intros Hp st x st' effs Hc; cbn [loop];
    destruct (Z.ltb_spec (collected st) TARGET_REPOS) as [Hlt|Hge];
    try discriminate;
    try (intros H; injection H as <- <- <-; split; [exact Hc|intros _; exact Hge]).
  pose proof (main_body_collected it st (Hp it (or_introl eq_refl))) as Hb.
  destruct (main_body it st) as [[[| | |] st1] effs1];
    cbn [fst snd] in Hb; try discriminate.
  - destruct (loop TARGET_REPOS rest st1) as [[[x2 st2] effs2]|] eqn:Hl;
      [|discriminate].
    intros H; injection H as <- <- <-.
    apply (IH (fun it' Hin => Hp it' (or_intror Hin)) st1 x2 st2 effs2);
      [lia|exact Hl].
  - intros H; injection H as <- <- <-. split; [lia|discriminate].
  - intros H; injection H as <- <- <-. split; [lia|discriminate].
Qed.

(** C8.  When the loop is left because its condition fails, the counter
    is at least the target and less than the target plus one page. *)
Theorem target_reached_overshoot TARGET_REPOS script st' effs :
  0 <= TARGET_REPOS ->
  within_page_size script ->
  loop TARGET_REPOS script initial = Some (TargetReached, st', effs) ->
  TARGET_REPOS <= collected st' < TARGET_REPOS + PAGE_SIZE.
Proof.
  intros Ht Hp Hl.
  destruct (loop_collected TARGET_REPOS script Hp initial _ _ _
              ltac:(cbn; unfold PAGE_SIZE; lia) Hl) as [H1 H2].
  split; [apply H2; reflexivity|exact H1].
Qed.

Lemma target_reached_overshoot_witness :
  let st' := {| collected := 4; after := Some "Y3Vyc29yOjQ="; page := 2 |} in
  3 <= collected st' < 3 + PAGE_SIZE.
Proof.
  intros st'.
  refine (target_reached_overshoot 3 (script two_pages_world) st'
            [CallGithub (variables None);
             UpsertRepos two_repos true; Sleep Throttle 200;
             CallGithub (variables (Some "Y3Vyc29yOjI="));
             UpsertRepos two_repos true; Sleep Throttle 200]
            _ _ _).
  - lia.
  - intros it [<-|[<-|[]]] v k status b H; injection H as _ <-;
      cbn; unfold PAGE_SIZE; lia.
  - reflexivity.
Defined.

(** ** Normalization *)






(** * Further properties *)

(** ** Attempts that fail in a row *)

Section FailedPrefix.

Context {A : Type}.
Variable fn : nat -> attempt_result A.

Lemma run_failed_prefix (err : nat -> error) (k : nat) :
  forall timeouts num errors,
    (k <= List.length timeouts)%nat ->
    (forall i, (num <= i < num + k)%nat ->
               fn i = {| bailed := None; completed := Thrown (err i) |}) ->
    run fn num timeouts errors
    = failed_prefix num (firstn k timeouts)
      ++ run fn (num + k) (skipn k timeouts) (errors ++ map err (seq num k)).
Proof.
  induction k as [|k IH]; intros timeouts num errors Hk Hf.
  - cbn [firstn skipn failed_prefix seq map app].
    rewrite Nat.add_0_r, app_nil_r. reflexivity.
  - destruct timeouts as [|t ts]; [cbn in Hk; lia|].
    rewrite run_eq, (Hf num) by lia.
    cbn [bail_events bailed completed app firstn skipn failed_prefix seq map].
    rewrite (IH ts (S num) (errors ++ [err num])).
    + rewrite <- app_assoc, Nat.add_succ_r. reflexivity.
    + cbn in Hk. lia.
    + intros i Hi. apply Hf. lia.
Qed.

Lemma settled_failed_prefix num used (tr : list (event A)) :
  settled (failed_prefix num used ++ tr) = settled tr.
Proof.
  revert num. induction used as [|t r IH]; intros num; [reflexivity|].
  cbn. apply IH.
Qed.

Lemma before_settled_failed_prefix num used (tr : list (event A)) :
  before_settled (failed_prefix num used ++ tr)
  = failed_prefix num used ++ before_settled tr.
Proof.
  revert num. induction used as [|t r IH]; intros num; [reflexivity|].
  cbn. rewrite IH. reflexivity.
Qed.

Lemma after_settled_failed_prefix num used (tr : list (event A)) :
  after_settled (failed_prefix num used ++ tr) = after_settled tr.
Proof.
  revert num. induction used as [|t r IH]; intros num; [reflexivity|].
  cbn. apply IH.
Qed.

Lemma attempts_failed_prefix num used :
  attempts (failed_prefix (A := A) num used) = List.length used.
Proof.
  revert num. induction used as [|t r IH]; intros num; [reflexivity|].
  cbn [failed_prefix List.length].
  change (attempts (Attempt num :: Timer t :: ?tr)) with (S (attempts tr)).
  rewrite IH. reflexivity.
Qed.

Lemma timers_failed_prefix num used (tr : list (event A)) :
  timers (failed_prefix num used ++ tr) = used ++ timers tr.
Proof.
  revert num. induction used as [|t r IH]; intros num; [reflexivity|].
  cbn. rewrite IH. reflexivity.
Qed.

(** A value the promise resolves with was returned by one of the
    attempts made. *)
Lemma run_resolved_range (timeouts : list Z) :
  forall num errors v,
    settled (run fn num timeouts errors) = Some (inl v) ->
    exists k, (num <= k <= num + List.length timeouts)%nat
              /\ completed (fn k) = Returned v.
Proof.
  induction timeouts as [|t ts IH]; intros num errors v; rewrite run_eq;
    cbn [settled]; unfold bail_events;
    destruct (bailed (fn num)); cbn [app settled]; try discriminate;
    destruct (completed (fn num)) as [v'|err] eqn:E; cbn [settled];
    try discriminate; intros H.
  - exists num. split; [lia|congruence].
  - exists num. split; [lia|congruence].
  - apply IH in H. destruct H as (k & Hk & H).
    exists k. split; [cbn [List.length]; lia|exact H].
Qed.

(** A rejection comes from [bail], or from the last attempt after every
    attempt threw without bailing. *)
Lemma run_rejected (timeouts : list Z) :
  forall num errors e,
    settled (run fn num timeouts errors) = Some (inr e) ->
    (exists k b, (num <= k <= num + List.length timeouts)%nat
                 /\ bailed (fn k) = Some b /\ e = Some b)
    \/ (forall k, (num <= k <= num + List.length timeouts)%nat ->
                  bailed (fn k) = None
                  /\ exists err, completed (fn k) = Thrown err).
Proof.
  induction timeouts as [|t ts IH]; intros num errors e; rewrite run_eq;
    cbn [settled]; unfold bail_events;
    destruct (bailed (fn num)) as [b|] eqn:Eb; cbn [app settled].
  - intros H. left. exists num, b. split; [lia|]. split; congruence.
  - destruct (completed (fn num)) as [v|err] eqn:E; cbn [settled];
      [discriminate|].
    intros _. right. intros k Hk. cbn [List.length] in Hk.
    assert (k = num) by lia. subst k. split; [exact Eb|]. eauto.
  - intros H. left. exists num, b. split; [lia|]. split; congruence.
  - destruct (completed (fn num)) as [v|err] eqn:E; cbn [settled];
      [discriminate|].
    intros H. apply IH in H. cbn [List.length].
    destruct H as [(k & b & Hk & Hb & He)|H].
    + left. exists k, b. split; [lia|]. split; assumption.
    + right. intros k Hk.
      destruct (Nat.eq_dec k num) as [->|Hne]; [split; eauto|].
      apply H. lia.
Qed.

End FailedPrefix.

(** ** [callGithub]: recovery, rejection, backoff *)

Lemma callGithub_fn_transient (r : axios_result) :
  transient r = true ->
  callGithub_fn r = {| bailed := None; completed := Thrown (thrown_error r) |}.
Proof.
  destruct r as [status b|err]; cbn [transient callGithub_fn thrown_error].
  - intros ->. reflexivity.
  - unfold callGithub_catch. destruct (is_401 err); [discriminate|reflexivity].
Qed.

Lemma callGithub_fn_thrown (r : axios_result) (err : error) :
  bailed (callGithub_fn r) = None ->
  completed (callGithub_fn r) = Thrown err ->
  transient r = true /\ err = thrown_error r.
Proof.
  destruct r as [status b|e]; cbn [transient callGithub_fn thrown_error].
  - destruct (500 <=? status); [|discriminate].
    cbn. intros _ H. split; [reflexivity|congruence].
  - unfold callGithub_catch. cbn. destruct (is_401 e); [discriminate|].
    intros _ H. split; [reflexivity|congruence].
Qed.

Lemma callGithub_fn_bailed (r : axios_result) (b : error) :
  bailed (callGithub_fn r) = Some b ->
  b = unauthorized /\ exists err, r = AxiosRejected err /\ is_401 err = true.
Proof.
  destruct r as [status d|e]; cbn [callGithub_fn].
  - destruct (500 <=? status); discriminate.
  - unfold callGithub_catch. cbn. destruct (is_401 e) eqn:E; [|discriminate].
    intros H. split; [congruence|]. exists e. split; [reflexivity|exact E].
Qed.

Lemma insert_length (x : Z) (l : list Z) :
  List.length (Retry.insert x l) = S (List.length l).
Proof.
  induction l as [|y r IH]; [reflexivity|].
  cbn [Retry.insert]. destruct (x <=? y); cbn [List.length]; congruence.
Qed.

Lemma sort_length (l : list Z) : List.length (Retry.sort l) = List.length l.
Proof.
  induction l as [|x r IH]; [reflexivity|].
  cbn [Retry.sort]. rewrite insert_length, IH. reflexivity.
Qed.

(** Five timeouts, whatever the random source. *)
Lemma timeouts_length (rnd : nat -> Q) :
  List.length (Retry.timeouts opts rnd) = 5%nat.
Proof.
  unfold Retry.timeouts. rewrite sort_length, length_map, length_seq.
  reflexivity.
Qed.

(** X1.  When the first [k] attempts (at most 5) fail with something
    other than a 401 and the next [axios.post] answers with a status
    below 500, [callGithub] resolves with that body after [k + 1] calls
    and the first [k] timeouts, and nothing happens afterwards. *)
Theorem callGithub_recovers post rnd v (k : nat) status d :
  (k <= 5)%nat ->
  (forall i, (1 <= i <= k)%nat -> transient (post v i) = true) ->
  post v (S k) = AxiosResolved status d ->
  status < 500 ->
  let tr := callGithub post rnd v in
  settled tr = Some (inl d)
  /\ attempts tr = S k
  /\ timers tr = firstn k (Retry.timeouts opts rnd)
  /\ after_settled tr = [].
Proof.
  intros Hk Ht Hp Hs tr.
  set (fn := fun num => callGithub_fn (post v num)).
  assert (Hrun : tr = failed_prefix 1 (firstn k (Retry.timeouts opts rnd))
                      ++ [Attempt (S k); Resolve d]).
  { unfold tr, callGithub, retry. fold opts. fold fn.
    rewrite (run_failed_prefix fn (fun i => thrown_error (post v i)) k).
    - f_equal. rewrite run_eq. unfold fn at 1 2.
      cbn [Nat.add]. rewrite Hp. cbn [callGithub_fn].
      destruct (Z.leb_spec 500 status); [lia|]. reflexivity.
    - rewrite timeouts_length. exact Hk.
    - intros i Hi. unfold fn. apply callGithub_fn_transient. apply Ht. lia. }
  rewrite Hrun. split; [|split; [|split]].
  - rewrite settled_failed_prefix. reflexivity.
  - rewrite attempts_app, attempts_failed_prefix, length_firstn, timeouts_length.
    cbn. lia.
  - rewrite timers_failed_prefix. cbn. apply app_nil_r.
  - rewrite after_settled_failed_prefix. reflexivity.
Qed.

Lemma callGithub_recovers_witness :
  let post := fun (_ : Request.t) (num : nat) =>
                if (num <? 5)%nat then AxiosRejected timeout_error
                else AxiosResolved 200 (a_body "Y3Vyc29yOjI=") in
  let tr := callGithub post no_jitter (variables None) in
  settled tr = Some (inl (a_body "Y3Vyc29yOjI="))
  /\ attempts tr = 5%nat
  /\ timers tr = [1000; 2000; 4000; 8000]
  /\ after_settled tr = [].
Proof.
  intros post.
  refine (callGithub_recovers post no_jitter (variables None) 4 200
            (a_body "Y3Vyc29yOjI=") _ _ _ _).
  - lia.
  - intros i Hi. unfold post.
    destruct (Nat.ltb_spec i 5); [reflexivity|lia].
  - reflexivity.
  - lia.
Defined.

(** X2.  When the first [k] attempts (at most 5) fail with something
    other than a 401 and the next one is answered 401, [callGithub] is
    rejected with the error "Unauthorized - check token" (not with the
    error of axios) right after that attempt. *)
Theorem callGithub_first_401 post rnd v (k : nat) err :
  (k <= 5)%nat ->
  (forall i, (1 <= i <= k)%nat -> transient (post v i) = true) ->
  post v (S k) = AxiosRejected err ->
  is_401 err = true ->
  let tr := callGithub post rnd v in
  settled tr = Some (inr (Some unauthorized))
  /\ before_settled tr
     = failed_prefix 1 (firstn k (Retry.timeouts opts rnd)) ++ [Attempt (S k)]
  /\ attempts (before_settled tr) = S k.
Proof.
  intros Hk Ht Hp H4 tr.
  set (fn := fun num => callGithub_fn (post v num)).
  set (ts := Retry.timeouts opts rnd).
  assert (Hrun : tr = failed_prefix 1 (firstn k ts)
                      ++ run fn (S k) (skipn k ts)
                           (map (fun i => thrown_error (post v i)) (seq 1 k))).
  { unfold tr, callGithub, retry. fold opts. fold fn. fold ts.
    rewrite (run_failed_prefix fn (fun i => thrown_error (post v i)) k).
    - reflexivity.
    - unfold ts. rewrite timeouts_length. exact Hk.
    - intros i Hi. unfold fn. apply callGithub_fn_transient. apply Ht. lia. }
  assert (Hb : bailed (fn (S k)) = Some unauthorized).
  { unfold fn. rewrite Hp. cbn [callGithub_fn callGithub_catch bailed].
    rewrite H4. reflexivity. }
  destruct (run_bail fn (skipn k ts) (S k)
              (map (fun i => thrown_error (post v i)) (seq 1 k))
              unauthorized Hb) as [H1 H2].
  rewrite Hrun. split; [|split].
  - rewrite settled_failed_prefix. exact H1.
  - rewrite before_settled_failed_prefix, H2. reflexivity.
  - rewrite before_settled_failed_prefix, H2, attempts_app,
      attempts_failed_prefix, length_firstn.
    unfold ts. rewrite timeouts_length. cbn. lia.
Qed.

Lemma callGithub_first_401_witness :
  let post := fun (_ : Request.t) (num : nat) =>
                if (num <? 3)%nat then AxiosRejected timeout_error
                else AxiosRejected http_401 in
  let tr := callGithub post no_jitter (variables None) in
  settled tr = Some (inr (Some unauthorized))
  /\ before_settled tr
     = [Attempt 1; Timer 1000; Attempt 2; Timer 2000; Attempt 3]
  /\ attempts (before_settled tr) = 3%nat.
Proof.
  intros post.
  refine (callGithub_first_401 post no_jitter (variables None) 2 http_401
            _ _ _ _).
  - lia.
  - intros i Hi. unfold post.
    destruct (Nat.ltb_spec i 3); [reflexivity|lia].
  - reflexivity.
  - reflexivity.
Defined.

(** X3.  What [callGithub] resolves with is the body of a response that
    one of its (at most 6) calls of [axios.post] received with a status
    below 500: a response with status 500 or above is never returned to
    the caller. *)
Theorem callGithub_resolves_below_500 post rnd v d :
  settled (callGithub post rnd v) = Some (inl d) ->
  exists k status,
    (1 <= k <= 6)%nat /\ post v k = AxiosResolved status d /\ status < 500.
Proof.
  intros H. apply run_resolved_range in H. destruct H as (k & Hk & H).
  fold opts in Hk. rewrite timeouts_length in Hk.
  exists k. unfold callGithub_fn, callGithub_catch in H.
  destruct (post v k) as [status b|err]; [|discriminate].
  exists status. destruct (Z.leb_spec 500 status); [discriminate|].
  cbn in H. split; [lia|]. split; [congruence|lia].
Qed.

Lemma callGithub_resolves_below_500_witness :
  exists k status,
    (1 <= k <= 6)%nat
    /\ post db_down_turn (variables None) k
       = AxiosResolved status (a_body "Y3Vyc29yOjI=")
    /\ status < 500.
Proof.
  apply (callGithub_resolves_below_500 (post db_down_turn) no_jitter
           (variables None) (a_body "Y3Vyc29yOjI=")).
  reflexivity.
Defined.

(** X4.  [callGithub] is rejected in two cases only: some attempt was
    answered 401, and the error is "Unauthorized - check token"; or all
    6 attempts failed with something else, and the error is the main
    error of the 6 failures. *)
Theorem callGithub_rejection_cases post rnd v e :
  settled (callGithub post rnd v) = Some (inr e) ->
  (e = Some unauthorized
   /\ exists k err, (1 <= k <= 6)%nat /\ post v k = AxiosRejected err
                    /\ is_401 err = true)
  \/ ((forall k, (1 <= k <= 6)%nat -> transient (post v k) = true)
      /\ attempts (callGithub post rnd v) = 6%nat
      /\ e = Retry.mainError
               (map (fun k => thrown_error (post v k)) (seq 1 6))).
Proof.
  intros H. pose proof H as H'. apply run_rejected in H'.
  fold opts in H'. rewrite timeouts_length in H'.
  destruct H' as [(k & b & Hk & Hb & He)|Hall].
  - left. apply callGithub_fn_bailed in Hb. destruct Hb as (-> & err & Hp & H4).
    split; [exact He|]. exists k, err. split; [lia|]. split; assumption.
  - right.
    assert (Ht : forall k, (1 <= k <= 6)%nat -> transient (post v k) = true).
    { intros k Hk. destruct (Hall k ltac:(lia)) as (Hb & err & Hc).
      apply (callGithub_fn_thrown _ _ Hb Hc). }
    split; [exact Ht|].
    destruct (run_all_thrown (fun num => callGithub_fn (post v num))
                (fun k => thrown_error (post v k))
                (Retry.timeouts opts rnd) 1 []) as (Ha & _ & Hs).
    { intros k Hk. rewrite timeouts_length in Hk.
      apply callGithub_fn_transient. apply Ht. lia. }
    rewrite timeouts_length in Ha, Hs. cbn [app] in Hs.
    split; [exact Ha|].
    unfold callGithub, retry in H. fold opts in H. rewrite Hs in H.
    congruence.
Qed.

Lemma callGithub_rejection_cases_witness :
  (Some timeout_error = Some unauthorized
   /\ exists k err, (1 <= k <= 6)%nat
                    /\ timeouts_then_502 (variables None) k = AxiosRejected err
                    /\ is_401 err = true)
  \/ ((forall k, (1 <= k <= 6)%nat ->
                 transient (timeouts_then_502 (variables None) k) = true)
      /\ attempts (callGithub timeouts_then_502 no_jitter (variables None)) = 6%nat
      /\ Some timeout_error
         = Retry.mainError
             (map (fun k => thrown_error (timeouts_then_502 (variables None) k))
                (seq 1 6))).
Proof.
  apply (callGithub_rejection_cases timeouts_then_502 no_jitter
           (variables None) (Some timeout_error)).
  reflexivity.
Defined.

Lemma total_app (l1 l2 : list Z) : total (l1 ++ l2) = total l1 + total l2.
Proof.
  unfold total. induction l1 as [|x r IH]; cbn [app fold_right]; lia.
Qed.

Lemma total_nonneg (l : list Z) : Forall (fun t => 0 <= t) l -> 0 <= total l.
Proof.
  unfold total. induction 1; cbn [fold_right]; lia.
Qed.

(** X5.  With [Math.random()] in [0, 1), the backoff timers one call of
    [callGithub] arms never decrease from one to the next and add up
    to at most 62000ms; when the first five attempts fail with something
    other than a 401, they add up to at least 31000ms. *)
Theorem callGithub_backoff_total post rnd v :
  (forall i, 0 <= rnd i /\ rnd i < 1)%Q ->
  let tr := callGithub post rnd v in
  total (timers tr) <= 62000
  /\ (forall i a b,
        nth_error (timers tr) i = Some a ->
        nth_error (timers tr) (S i) = Some b ->
        a <= b)
  /\ ((forall k, (1 <= k <= 5)%nat -> transient (post v k) = true) ->
      31000 <= total (timers tr)).
Proof.
  intros Hr tr.
  destruct (run_timers (fun num => callGithub_fn (post v num))
              (Retry.timeouts opts rnd) 1 []) as [unused Hu].
  change (run (fun num => callGithub_fn (post v num)) 1
            (Retry.timeouts opts rnd) []) with tr in Hu.
  pose proof (timeouts_callGithub rnd Hr) as Ht. cbn [seq map] in Ht.
  rewrite Ht in Hu.
  pose proof (createTimeout_bounds 0 (rnd 0%nat) ltac:(lia) (proj1 (Hr _)) (proj2 (Hr _))) as B0.
  pose proof (createTimeout_bounds 1 (rnd 1%nat) ltac:(lia) (proj1 (Hr _)) (proj2 (Hr _))) as B1.
  pose proof (createTimeout_bounds 2 (rnd 2%nat) ltac:(lia) (proj1 (Hr _)) (proj2 (Hr _))) as B2.
  pose proof (createTimeout_bounds 3 (rnd 3%nat) ltac:(lia) (proj1 (Hr _)) (proj2 (Hr _))) as B3.
  pose proof (createTimeout_bounds 4 (rnd 4%nat) ltac:(lia) (proj1 (Hr _)) (proj2 (Hr _))) as B4.
  revert Hu Ht B0 B1 B2 B3 B4.
  generalize (Retry.createTimeout 0 opts (rnd 0%nat)) as t0.
  generalize (Retry.createTimeout 1 opts (rnd 1%nat)) as t1.
  generalize (Retry.createTimeout 2 opts (rnd 2%nat)) as t2.
  generalize (Retry.createTimeout 3 opts (rnd 3%nat)) as t3.
  generalize (Retry.createTimeout 4 opts (rnd 4%nat)) as t4.
  intros t4 t3 t2 t1 t0 Hu Ht.
  change (2 ^ Z.of_nat 0) with 1. change (2 ^ Z.of_nat 1) with 2.
  change (2 ^ Z.of_nat 2) with 4. change (2 ^ Z.of_nat 3) with 8.
  change (2 ^ Z.of_nat 4) with 16.
  intros B0 B1 B2 B3 B4.
  split; [|split].
  - assert (Hn : 0 <= total unused).
    { apply total_nonneg.
      assert (Hall : Forall (fun t => 0 <= t) (timers tr ++ unused)).
      { rewrite <- Hu. repeat constructor; lia. }
      apply Forall_app in Hall. apply Hall. }
    pose proof (f_equal total Hu) as Hsum. rewrite total_app in Hsum.
    change (total [t0; t1; t2; t3; t4])
      with (t0 + (t1 + (t2 + (t3 + (t4 + 0))))) in Hsum.
    lia.
  - intros i a b Ha Hb.
    assert (Ha' : nth_error [t0; t1; t2; t3; t4] i = Some a).
    { rewrite Hu, nth_error_app1; [exact Ha|].
      apply nth_error_Some. rewrite Ha. discriminate. }
    assert (Hb' : nth_error [t0; t1; t2; t3; t4] (S i) = Some b).
    { rewrite Hu, nth_error_app1; [exact Hb|].
      apply nth_error_Some. rewrite Hb. discriminate. }
    destruct i as [|[|[|[|[|i]]]]]; cbn in Ha', Hb';
      try (injection Ha' as <-; injection Hb' as <-; lia);
      discriminate.
  - intros Hf.
    assert (Hall : timers tr = [t0; t1; t2; t3; t4]).
    { unfold tr, callGithub, retry. fold opts.
      rewrite (run_failed_prefix (fun num => callGithub_fn (post v num))
                 (fun i => thrown_error (post v i)) 5).
      - rewrite timers_failed_prefix, Ht. cbn [firstn skipn].
        rewrite run_eq.
        change (timers (Attempt ?n :: ?x)) with (timers x).
        rewrite timers_bail_events.
        destruct (completed _); cbn; reflexivity.
      - rewrite timeouts_length. lia.
      - intros i Hi. apply callGithub_fn_transient. apply Hf. lia. }
    rewrite Hall.
    change (total [t0; t1; t2; t3; t4])
      with (t0 + (t1 + (t2 + (t3 + (t4 + 0))))).
    lia.
Qed.

Lemma callGithub_backoff_total_witness :
  total (timers (callGithub (always_rejects timeout_error) half_jitter
                   (variables None))) <= 62000.
Proof.
  refine (proj1 (callGithub_backoff_total (always_rejects timeout_error)
                   half_jitter (variables None) _)).
  intros i. split; [discriminate|reflexivity].
Defined.


(** ** Invariants of the loop *)

(** What holds of the empty run, of every turn, and of two runs put
    end to end, holds of every run of the loop. *)
Lemma loop_inv (P : state -> state -> list effect -> Prop)
    (script : list iteration) :
  (forall st, P st st []) ->
  (forall it st, In it script ->
                 P st (snd (fst (main_body it st))) (snd (main_body it st))) ->
  (forall st1 st2 st3 e1 e2,
     P st1 st2 e1 -> P st2 st3 e2 -> P st1 st3 (e1 ++ e2)) ->
  forall TARGET_REPOS l st x st' effs,
    incl l script ->
    loop TARGET_REPOS l st = Some (x, st', effs) ->
    P st st' effs.
Proof.
  intros Hnil Hturn Happ TARGET_REPOS l.
  induction l as [|it rest IH]; intros st x st' effs Hin; cbn [loop];
    destruct (collected st <? TARGET_REPOS); try discriminate;
    try (intros H; injection H as <- <- <-; apply Hnil).
  pose proof (Hturn it st (Hin it (or_introl eq_refl))) as Hb.
  destruct (main_body it st) as [[[| | |] st1] effs1]; cbn [fst snd] in Hb;
    try discriminate.
  - destruct (loop TARGET_REPOS rest st1) as [[[x2 st2] effs2]|] eqn:Hl;
      [|discriminate].
    intros H; injection H as <- <- <-.
    apply (Happ st st1 st2); [exact Hb|].
    apply (IH st1 x2 st2 effs2); [|exact Hl].
    intros i Hi. apply Hin. right. exact Hi.
  - intros H; injection H as <- <- <-. exact Hb.
  - intros H; injection H as <- <- <-. exact Hb.
Qed.

Lemma persisted_app e1 e2 : persisted (e1 ++ e2) = persisted e1 + persisted e2.
Proof.
  induction e1 as [|[| | |repos [|]|] r IH]; cbn [app persisted]; lia.
Qed.

Lemma requests_app e1 e2 : requests (e1 ++ e2) = (requests e1 + requests e2)%nat.
Proof.
  induction e1 as [|[| | | |] r IH]; cbn [app requests]; lia.
Qed.

Lemma upserts_app e1 e2 : upserts (e1 ++ e2) = (upserts e1 + upserts e2)%nat.
Proof.
  induction e1 as [|[| | | |] r IH]; cbn [app upserts]; lia.
Qed.

(** What one turn does to the counters, and what it emits. *)
Lemma handle_page_accounts it st s :
  let '(f, st', effs) := handle_page it st s in
  collected st' = collected st + persisted effs
  /\ page st' = page st
  /\ requests effs = 0%nat
  /\ (upserts effs <= 1)%nat
  /\ Forall pause_ok effs
  /\ Forall batch_ok effs.
Proof.
  unfold handle_page.
  destruct s as [s|]; [|cbn; repeat split; (lia || constructor)].
  destruct (edges s) as [[|e es]|];
    try (cbn; repeat split; (lia || constructor)).
  pose proof (Array_map_length normalize (e :: es)) as Hlen.
  destruct (JS.Array_map normalize (e :: es)) as [repos|];
    [|cbn; repeat split; (lia || constructor)].
  specialize (Hlen repos eq_refl).
  assert (Hne : repos <> []) by (intros ->; discriminate Hlen).
  destruct (upsertRepos it repos), (hasNextPage (pageInfo s)),
    (JS.truthy (endCursor (pageInfo s)));
    cbn [negb fst snd collected page app persisted requests upserts];
    repeat split; try lia;
    repeat (constructor; try exact Hne; try reflexivity).
Qed.

Lemma main_body_accounts it st :
  let '(f, st', effs) := main_body it st in
  collected st' = collected st + persisted effs
  /\ page st' = page st + 1
  /\ requests effs = 1%nat
  /\ (upserts effs <= 1)%nat
  /\ Forall pause_ok effs
  /\ Forall batch_ok effs.
Proof.
  unfold main_body.
  destruct (settled _) as [[d|e]|];
    try (cbn; repeat split; try lia; repeat constructor).
  destruct (errors d);
    [cbn; repeat split; try lia; repeat constructor|].
  destruct (data d) as [p|];
    [|cbn; repeat split; try lia; repeat constructor].
  destruct (rate_limit_wait (rateLimit p) (now it)) as [w|] eqn:Hw.
  - assert (1000 <= w).
    { unfold rate_limit_wait in Hw.
      destruct (rateLimit p) as [rl|]; [|discriminate].
      destruct (remaining rl <=? 10); [|discriminate].
      injection Hw as <-. unfold JS.Math_max. lia. }
    cbn [next_page collected page persisted requests upserts].
    repeat split; try lia; repeat (constructor; try exact I; try assumption).
  - pose proof (handle_page_accounts it (next_page st) (search p)) as H.
    destruct (handle_page _ _ _) as [[f st'] effs].
    destruct H as (H1 & H2 & H3 & H4 & H5 & H6).
    cbn [next_page collected page persisted requests upserts] in *.
    rewrite H3. repeat split; try lia; constructor; try exact I; assumption.
Qed.

Lemma loop_accounts TARGET_REPOS script st x st' effs :
  loop TARGET_REPOS script st = Some (x, st', effs) ->
  collected st' = collected st + persisted effs
  /\ page st' = page st + Z.of_nat (requests effs)
  /\ (upserts effs <= requests effs)%nat
  /\ Forall pause_ok effs
  /\ Forall batch_ok effs.
Proof.
  apply (loop_inv
           (fun st st' effs =>
              collected st' = collected st + persisted effs
              /\ page st' = page st + Z.of_nat (requests effs)
              /\ (upserts effs <= requests effs)%nat
              /\ Forall pause_ok effs
              /\ Forall batch_ok effs) script).
  - intros s. cbn. repeat split; try lia; constructor.
  - intros it s _. pose proof (main_body_accounts it s) as H.
    destruct (main_body it s) as [[f s'] e]. cbn [fst snd].
    destruct H as (H1 & H2 & H3 & H4 & H5 & H6).
    rewrite H3. repeat split; try assumption; lia.
  - intros s1 s2 s3 e1 e2 (A1 & A2 & A3 & A4 & A5) (B1 & B2 & B3 & B4 & B5).
    rewrite persisted_app, requests_app, upserts_app.
    repeat split; try lia; apply Forall_app; split; assumption.
  - apply incl_refl.
Qed.

(** The trace of a run: [ensureSchema], the effects of the loop and,
    unless an exception escaped, [closePool]. *)
Lemma main_trace TARGET_REPOS w r :
  main TARGET_REPOS w = Some r ->
  (ensureSchema w = false /\ trace r = [EnsureSchema] /\ final r = initial)
  \/ (ensureSchema w = true
      /\ exists x effs,
           loop TARGET_REPOS (script w) initial = Some (x, final r, effs)
           /\ (trace r = EnsureSchema :: effs
               \/ trace r = EnsureSchema :: effs ++ [ClosePool])).
Proof.
  unfold main. destruct (ensureSchema w); cbn [negb].
  - destruct (loop TARGET_REPOS (script w) initial) as [[[x st] effs]|];
      [|discriminate].
    intros H. right. split; [reflexivity|]. exists x, effs.
    destruct x; injection H as <-; cbn [trace final]; auto.
  - intros H; injection H as <-. left. auto.
Qed.

(** X6.  At the end of a run, the counter [collected] is the number of
    records in the batches [upsertRepos] accepted: a record is counted
    if and only if its batch was persisted. *)
Theorem main_collected_is_persisted TARGET_REPOS w r :
  main TARGET_REPOS w = Some r ->
  collected (final r) = persisted (trace r).
Proof.
  intros H. apply main_trace in H.
  destruct H as [(_ & -> & ->)|(_ & x & effs & Hl & Ht)]; [reflexivity|].
  apply loop_accounts in Hl. destruct Hl as (Hc & _).
  cbn [initial collected] in Hc.
  destruct Ht as [-> | ->]; cbn [persisted];
    rewrite ?persisted_app; cbn [persisted]; lia.
Qed.

Lemma main_collected_is_persisted_witness :
  persisted [EnsureSchema; CallGithub (variables None);
             UpsertRepos two_repos true; Sleep Throttle 200;
             CallGithub (variables (Some "Y3Vyc29yOjI="));
             UpsertRepos two_repos true; Sleep Throttle 200;
             ClosePool]
  = 4.
Proof.
  symmetry.
  exact (main_collected_is_persisted 3 two_pages_world
           {| trace := [EnsureSchema; CallGithub (variables None);
                        UpsertRepos two_repos true;
                        Sleep Throttle 200;
                        CallGithub (variables (Some "Y3Vyc29yOjI="));
                        UpsertRepos two_repos true;
                        Sleep Throttle 200; ClosePool];
              exit_code := 0;
              final := {| collected := 4; after := Some "Y3Vyc29yOjQ=";
                          page := 2 |} |}
           ltac:(vm_compute; reflexivity)).
Defined.

(** X7.  At the end of a run, the page counter is the number of calls
    of [callGithub], and [upsertRepos] was called at most once per call
    of [callGithub]. *)
Theorem main_page_counts_requests TARGET_REPOS w r :
  main TARGET_REPOS w = Some r ->
  page (final r) = Z.of_nat (requests (trace r))
  /\ (upserts (trace r) <= requests (trace r))%nat.
Proof.
  intros H. apply main_trace in H.
  destruct H as [(_ & -> & ->)|(_ & x & effs & Hl & Ht)];
    [split; [reflexivity|cbn; lia]|].
  apply loop_accounts in Hl. destruct Hl as (_ & Hp & Hu & _).
  cbn [initial page] in Hp.
  destruct Ht as [-> | ->]; cbn [requests upserts];
    rewrite ?requests_app, ?upserts_app; cbn [requests upserts]; lia.
Qed.

Lemma main_page_counts_requests_witness :
  page (next_page initial)
  = Z.of_nat (requests [EnsureSchema; CallGithub (variables None); ClosePool])
  /\ (upserts [EnsureSchema; CallGithub (variables None); ClosePool]
      <= requests [EnsureSchema; CallGithub (variables None); ClosePool])%nat.
Proof.
  exact (main_page_counts_requests 100000 unauthorized_world
           {| trace := [EnsureSchema; CallGithub (variables None); ClosePool];
              exit_code := 0;
              final := next_page initial |}
           ltac:(vm_compute; reflexivity)).
Defined.

(** X8.  No run hands an empty batch to [upsertRepos], and every call
    of [sleep] in a run (lines 109, 123, 153 and 164; the timers between
    the attempts of [callGithub] are armed by the retrier, not by
    [sleep]) is one of four: 5000ms after GraphQL errors, 3000ms after a
    failed upsert, 200ms between pages, and the governor's wait, which
    is 1000ms at least. *)
Theorem main_batches_and_pauses TARGET_REPOS w r :
  main TARGET_REPOS w = Some r ->
  Forall batch_ok (trace r) /\ Forall pause_ok (trace r).
Proof.
  intros H. apply main_trace in H.
  destruct H as [(_ & -> & _)|(_ & x & effs & Hl & Ht)];
    [split; repeat constructor|].
  apply loop_accounts in Hl. destruct Hl as (_ & _ & _ & Hp & Hb).
  destruct Ht as [-> | ->]; split;
    repeat (apply Forall_cons; [exact I|]);
    try apply Forall_app; try split; try assumption;
    repeat constructor.
Qed.

Lemma main_batches_and_pauses_witness :
  let t := [EnsureSchema;
            CallGithub (variables None); Sleep AfterErrors 5000;
            CallGithub (variables None); Sleep RateLimit 32000;
            CallGithub (variables None); UpsertRepos two_repos false;
            Sleep AfterDbError 3000; Sleep Throttle 200;
            CallGithub (variables (Some "Y3Vyc29yOjI="));
            UpsertRepos two_repos true; Sleep Throttle 200;
            ClosePool] in
  Forall batch_ok t /\ Forall pause_ok t.
Proof.
  intros t.
  exact (main_batches_and_pauses 2 eventful_world
           {| trace := t; exit_code := 0;
              final := {| collected := 2; after := Some "Y3Vyc29yOjQ=";
                          page := 4 |} |}
           ltac:(vm_compute; reflexivity)).
Defined.

(** ** Turns that ask again, turns that end the loop *)

Lemma stalls_stalled c it : stalls c it -> exists pause, stalled c it pause.
Proof.
  intros (d & Hs & Hd). destruct (errors d) as [errs|] eqn:He.
  - exists (Sleep AfterErrors 5000), d. split; [exact Hs|].
    left. split; [rewrite He; discriminate|reflexivity].
  - destruct Hd as [Hd|(p & rl & Hp & Hr & Hl)];
      [contradiction Hd; reflexivity|].
    exists (Sleep RateLimit (Z.max 1000 (resetAt rl - now it + 2000))), d.
    split; [exact Hs|]. right. split; [exact He|].
    exists p, rl. auto.
Qed.

Lemma stalled_pause c it pause :
  stalled c it pause ->
  pause = Sleep AfterErrors 5000
  \/ exists ms, pause = Sleep RateLimit ms /\ 1000 <= ms.
Proof.
  intros (d & _ & [[_ ->]|(_ & p & rl & _ & _ & _ & ->)]).
  - left. reflexivity.
  - right. eexists. split; [reflexivity|lia].
Qed.

Lemma add_pages_next_page n st :
  add_pages n (next_page st) = add_pages (S n) st.
Proof.
  unfold add_pages, next_page. cbn [collected after page]. f_equal. lia.
Qed.

(** X9.  Turns answered with GraphQL errors or with a low quota
    snapshot can follow one another without bound: each of them asks for
    the same page again and then pauses, 5000ms after GraphQL errors and
    the governor's wait otherwise, and does nothing else; nothing is
    persisted, only the page counter moves; the loop goes on after them
    as it would have without them, and it does not end while they
    last. *)
Theorem stalled_turns_repeat TARGET_REPOS (pre : list iteration) :
  forall st,
    collected st < TARGET_REPOS ->
    Forall (stalls (after st)) pre ->
    exists pauses,
      Forall2 (stalled (after st)) pre pauses
      /\ let effs :=
            flat_map (fun pause => [CallGithub (variables (after st)); pause])
              pauses in
         Forall (stall_effect (after st)) effs
         /\ requests effs = List.length pre
         /\ persisted effs = 0
         /\ (forall rest,
               loop TARGET_REPOS (pre ++ rest) st
               = prepend effs
                   (loop TARGET_REPOS rest (add_pages (List.length pre) st)))
         /\ loop TARGET_REPOS pre st = None.
Proof.
  induction pre as [|it pre IH]; intros st Hc Hs.
  - exists []. split; [constructor|]. cbn [flat_map].
    split; [constructor|]. split; [reflexivity|]. split; [reflexivity|].
    assert (Hst : add_pages 0 st = st).
    { destruct st. unfold add_pages. cbn. f_equal. lia. }
    split.
    + intros rest. cbn [app List.length]. rewrite Hst.
      destruct (loop TARGET_REPOS rest st) as [[[x s] e]|]; reflexivity.
    + cbn [loop]. destruct (Z.ltb_spec (collected st) TARGET_REPOS);
        [reflexivity|lia].
  - inversion Hs as [|? ? Hit Hpre]; subst.
    destruct (stalls_stalled _ _ Hit) as (pause & Hst).
    pose proof (stalled_pause _ _ _ Hst) as He.
    assert (Hb : main_body it st
                 = (Continue, next_page st,
                    [CallGithub (variables (after st)); pause])).
    { destruct Hst as (d & Hd & Hp). exact (stall_pause_turn it st d pause Hd Hp). }
    destruct (IH (next_page st) Hc Hpre) as (pauses & Hf2 & Hf & Hr & Hz & Hl & Hn).
    cbn [next_page after] in Hf2, Hf, Hr, Hz, Hl, Hn.
    exists (pause :: pauses). split; [constructor; assumption|].
    cbn [flat_map].
    set (effs := flat_map
                   (fun pause0 => [CallGithub (variables (after st)); pause0])
                   pauses) in *.
    split; [|split; [|split; [|split]]].
    + apply Forall_app. split; [|exact Hf].
      constructor; [left; reflexivity|].
      constructor; [right; exact He|constructor].
    + rewrite requests_app, Hr. destruct He as [->|(ms & -> & _)];
        reflexivity.
    + rewrite persisted_app, Hz. destruct He as [->|(ms & -> & _)];
        reflexivity.
    + intros rest. change ((it :: pre) ++ rest) with (it :: pre ++ rest).
      cbn [loop].
      destruct (Z.ltb_spec (collected st) TARGET_REPOS); [|lia].
      rewrite Hb, (Hl rest). cbn [List.length].
      rewrite add_pages_next_page.
      destruct (loop TARGET_REPOS rest (add_pages (S (List.length pre)) st))
        as [[[x s] e']|]; cbn [prepend app]; reflexivity.
    + cbn [loop]. destruct (Z.ltb_spec (collected st) TARGET_REPOS); [|lia].
      rewrite Hb, Hn. reflexivity.
Qed.

Lemma stalled_turns_repeat_witness :
  exists pauses,
    Forall2 (stalled None) [errors_low_quota_turn; empty_low_quota_turn]
      pauses
    /\ loop 100000 [errors_low_quota_turn; empty_low_quota_turn] initial
       = None.
Proof.
  destruct (stalled_turns_repeat 100000
              [errors_low_quota_turn; empty_low_quota_turn] initial)
    as (pauses & H2 & _ & _ & _ & _ & H).
  - cbn. lia.
  - constructor; [|constructor; [|constructor]].
    + exists (Build_body
                (Some ["Something went wrong while executing your query"])
                (Some {| rateLimit := Some low_quota; search := None |})).
      split; [vm_compute; reflexivity|]. left. discriminate.
    + exists (Build_body None
                (Some {| rateLimit := Some low_quota;
                         search := Some (a_search [] None false) |})).
      split; [vm_compute; reflexivity|]. right.
      exists {| rateLimit := Some low_quota;
                search := Some (a_search [] None false) |}, low_quota.
      repeat split. cbn. lia.
  - exists pauses. split; [exact H2|exact H].
Defined.

(** X10.  A turn in which [callGithub] is rejected ends the loop at
    once, whatever would have followed: nothing is persisted, and the
    cursor and the counter are those before the turn. *)
Theorem fatal_failure_ends_loop TARGET_REPOS it rest st e :
  collected st < TARGET_REPOS ->
  settled (callGithub (post it) (random it) (variables (after st)))
  = Some (inr e) ->
  loop TARGET_REPOS (it :: rest) st
  = Some (Broke, next_page st, [CallGithub (variables (after st))]).
Proof.
  intros Hc Hs. cbn [loop].
  destruct (Z.ltb_spec (collected st) TARGET_REPOS); [|lia].
  resolved Hs. reflexivity.
Qed.

Lemma fatal_failure_ends_loop_witness :
  loop 100000 (fails timeout_error :: script two_pages_world) initial
  = Some (Broke, next_page initial, [CallGithub (variables None)]).
Proof.
  refine (fatal_failure_ends_loop 100000 (fails timeout_error)
            (script two_pages_world) initial (Some timeout_error) _ _).
  - cbn. lia.
  - vm_compute. reflexivity.
Defined.

(** X11.  A turn whose page has records, none of them a null edge or
    an edge with a null node, and whose batch [upsertRepos] accepts adds
    the number of records to the counter and moves the cursor to the
    page's [endCursor].  The loop goes on, after a 200ms
    pause, when [hasNextPage] holds and the new cursor is not empty; it
    ends without pause when [hasNextPage] is false, and after the pause
    when the cursor is empty. *)
Theorem persisted_page_advances it st d p s es repos :
  settled (callGithub (post it) (random it) (variables (after st)))
  = Some (inl d) ->
  errors d = None ->
  data d = Some p ->
  (forall rl, rateLimit p = Some rl -> 10 < remaining rl) ->
  search p = Some s ->
  edges s = Some es ->
  es <> [] ->
  JS.Array_map normalize es = Some repos ->
  upsertRepos it repos = true ->
  main_body it st
  = (if hasNextPage (pageInfo s) && JS.truthy (endCursor (pageInfo s))
     then Continue else Break,
     {| collected := collected st + Z.of_nat (List.length es);
        after := endCursor (pageInfo s);
        page := page st + 1 |},
     CallGithub (variables (after st))
       :: UpsertRepos repos true
       :: (if hasNextPage (pageInfo s) then [Sleep Throttle 200] else [])).
Proof.
  intros Hs He Hd Hq Hp Hes Hne Hm Hu.
  resolved Hs. rewrite He, Hd.
  rewrite (proj2 (rate_limit_wait_none _ (now it)) Hq), Hp.
  unfold handle_page. rewrite Hes.
  destruct es as [|e0 es]; [contradiction Hne; reflexivity|].
  rewrite Hm, Hu, (Array_map_length _ _ _ Hm).
  destruct (hasNextPage (pageInfo s)), (JS.truthy (endCursor (pageInfo s)));
    reflexivity.
Qed.

Lemma persisted_page_advances_witness :
  main_body (answers (a_body "Y3Vyc29yOjI=") 0 true) initial
  = (Continue,
     {| collected := 2; after := Some "Y3Vyc29yOjI="; page := 1 |},
     [CallGithub (variables None);
      UpsertRepos two_repos true; Sleep Throttle 200]).
Proof.
  refine (persisted_page_advances (answers (a_body "Y3Vyc29yOjI=") 0 true)
            initial (a_body "Y3Vyc29yOjI=") (a_payload "Y3Vyc29yOjI=")
            (a_search two_edges (Some "Y3Vyc29yOjI=") true) two_edges
            two_repos _ _ _ _ _ _ _ _ _); try (vm_compute; reflexivity).
  - intros rl H. discriminate H.
  - discriminate.
Defined.

(** X12.  The loop pauses for the rate limit only on a response without
    GraphQL errors whose snapshot has [remaining <= 10]; the pause is
    1000ms at least and ends no earlier than 2000ms after the reset
    instant of the snapshot, and the turn changes neither the cursor nor
    the counter. *)
Theorem rate_limit_pause_only_on_low_quota it st ms :
  In (Sleep RateLimit ms) (snd (main_body it st)) ->
  exists d p rl,
    settled (callGithub (post it) (random it) (variables (after st)))
    = Some (inl d)
    /\ errors d = None /\ data d = Some p /\ rateLimit p = Some rl
    /\ remaining rl <= 10
    /\ 1000 <= ms
    /\ resetAt rl + 2000 <= now it + ms
    /\ main_body it st
       = (Continue, next_page st,
          [CallGithub (variables (after st)); Sleep RateLimit ms]).
Proof.
  unfold main_body. cbn [next_page after].
  destruct (settled _) as [[d|e]|] eqn:Hs;
    try (cbn; intros [H|[]]; discriminate H).
  destruct (errors d) eqn:He;
    [cbn; intros [H|[H|[]]]; discriminate H|].
  destruct (data d) as [p|] eqn:Hd;
    [|cbn; intros [H|[]]; discriminate H].
  destruct (rate_limit_wait (rateLimit p) (now it)) as [w|] eqn:Hw.
  - cbn [snd]. intros [H|[H|[]]]; [discriminate H|]. injection H as ->.
    unfold rate_limit_wait in Hw.
    destruct (rateLimit p) as [rl|] eqn:Hr; [|discriminate].
    destruct (Z.leb_spec (remaining rl) 10); [|discriminate].
    injection Hw as <-. unfold JS.Math_max.
    exists d, p, rl. repeat split; try assumption; try lia.
  - intros H. exfalso.
    pose proof (handle_page_pauses it
                  {| collected := collected st; after := after st;
                     page := page st + 1 |} (search p) ms) as [Hn _].
    fold (next_page st) in Hn.
    change {| collected := collected st; after := after st;
              page := page st + 1 |} with (next_page st) in *.
    destruct (handle_page it (next_page st) (search p)) as [[f st'] effs].
    cbn [snd] in *. destruct H as [H|H]; [discriminate H|exact (Hn H)].
Qed.

Lemma rate_limit_pause_only_on_low_quota_witness :
  exists d p rl,
    settled (callGithub (post empty_low_quota_turn)
               (random empty_low_quota_turn) (variables (after initial)))
    = Some (inl d)
    /\ errors d = None /\ data d = Some p /\ rateLimit p = Some rl
    /\ remaining rl <= 10
    /\ 1000 <= 32000
    /\ resetAt rl + 2000 <= now empty_low_quota_turn + 32000
    /\ main_body empty_low_quota_turn initial
       = (Continue, next_page initial,
          [CallGithub (variables (after initial)); Sleep RateLimit 32000]).
Proof.
  apply (rate_limit_pause_only_on_low_quota empty_low_quota_turn initial 32000).
  vm_compute. right. left. reflexivity.
Defined.

(** ** The requests of a run *)

(** A turn asks for the page after the cursor of the state, and for
    nothing else; the cursor after it is the same or an [endCursor] the
    turn received, which is not empty when the loop goes on. *)
Lemma main_body_cursor it st :
  (forall v, In (CallGithub v) (snd (main_body it st)) ->
             v = variables (after st))
  /\ (fst (fst (main_body it st)) = Continue ->
      after (snd (fst (main_body it st))) = after st
      \/ (received it st (after (snd (fst (main_body it st))))
          /\ JS.truthy (after (snd (fst (main_body it st)))) = true)).
Proof.
  unfold main_body, received. cbn [next_page after].
  destruct (settled _) as [[d|e]|] eqn:Hs;
    try (cbn; split; [intros v [H|[]]; congruence|auto]).
  destruct (errors d) eqn:He;
    [cbn; split; [intros v [H|[H|[]]]; congruence|auto]|].
  destruct (data d) as [p|] eqn:Hd;
    [|cbn; split; [intros v [H|[]]; congruence|auto]].
  destruct (rate_limit_wait _ _);
    [cbn; split; [intros v [H|[H|[]]]; congruence|auto]|].
  unfold handle_page.
  destruct (search p) as [s|] eqn:Hp;
    [|cbn; split; [intros v [H|[]]; congruence|auto]].
  destruct (edges s) as [[|e0 es]|];
    try (cbn; split; [intros v [H|[]]; congruence|auto]).
  destruct (JS.Array_map normalize (e0 :: es)) as [repos|];
    [|cbn; split; [intros v [H|[]]; congruence|discriminate]].
  destruct (upsertRepos it repos), (hasNextPage (pageInfo s)),
    (JS.truthy (endCursor (pageInfo s))) eqn:Ht;
    cbn [negb fst snd after app]; split;
    try (intros v H; repeat (destruct H as [H|H]; try congruence);
         destruct H);
    try discriminate;
    intros _; right; (split; [|exact Ht]);
    exists d, p, s; auto.
Qed.

(** Every request of the loop is the request of a turn that is run. *)
Lemma loop_requests TARGET_REPOS script :
  forall st x st' effs,
    loop TARGET_REPOS script st = Some (x, st', effs) ->
    forall v,
      In (CallGithub v) effs ->
      exists pre it rest stk effsk,
        script = pre ++ it :: rest
        /\ advance TARGET_REPOS pre st = Some (stk, effsk)
        /\ collected stk < TARGET_REPOS
        /\ v = variables (after stk).
Proof.
  induction script as [|it rest IH]; intros st x st' effs; cbn [loop];
    destruct (Z.ltb_spec (collected st) TARGET_REPOS) as [Hlt|Hge];
    try discriminate;
    try (intros H; injection H as <- <- <-; intros v []).
  pose proof (proj1 (main_body_cursor it st)) as Hv.
  assert (Hturn : forall v, In (CallGithub v) (snd (main_body it st)) ->
                  exists pre i r stk effsk,
                    it :: rest = pre ++ i :: r
                    /\ advance TARGET_REPOS pre st = Some (stk, effsk)
                    /\ collected stk < TARGET_REPOS
                    /\ v = variables (after stk)).
  { intros v Hin. exists [], it, rest, st, [].
    split; [reflexivity|]. split; [reflexivity|]. split; [exact Hlt|].
    apply Hv. exact Hin. }
  destruct (main_body it st) as [[[| | |] st1] effs1] eqn:Eb;
    cbn [fst snd] in *; try discriminate.
  - destruct (loop TARGET_REPOS rest st1) as [[[x2 st2] effs2]|] eqn:Hl;
      [|discriminate].
    intros H; injection H as <- <- <-. intros v Hin.
    apply in_app_or in Hin. destruct Hin as [Hin|Hin]; [apply Hturn; exact Hin|].
    destruct (IH _ _ _ _ Hl v Hin) as (pre & i & r & stk & effsk & -> & Ha & Hc & ->).
    exists (it :: pre), i, r, stk, (effs1 ++ effsk).
    split; [reflexivity|]. split; [|split; [exact Hc|reflexivity]].
    cbn [advance]. destruct (Z.ltb_spec (collected st) TARGET_REPOS); [|lia].
    rewrite Eb, Ha. reflexivity.
  - intros H; injection H as <- <- <-. exact Hturn.
  - intros H; injection H as <- <- <-. exact Hturn.
Qed.

(** The cursor after turns that all went back to the loop condition is
    the one before them, or a non-empty one received in one of them. *)
Lemma advance_cursor TARGET_REPOS pre :
  forall st st' effs,
    advance TARGET_REPOS pre st = Some (st', effs) ->
    after st' = after st
    \/ (JS.truthy (after st') = true
        /\ received_earlier TARGET_REPOS st pre (after st')).
Proof.
  induction pre as [|it pre IH]; intros st st' effs; cbn [advance].
  - intros H; injection H as <- <-. left. reflexivity.
  - destruct (Z.ltb_spec (collected st) TARGET_REPOS) as [Hlt|Hge];
      [|discriminate].
    pose proof (proj2 (main_body_cursor it st)) as Hc.
    destruct (main_body it st) as [[[| | |] st1] effs1] eqn:Eb;
      try discriminate. cbn [fst snd] in Hc.
    destruct (advance TARGET_REPOS pre st1) as [[st2 effs2]|] eqn:Ha;
      [|discriminate].
    intros H; injection H as <- <-.
    destruct (IH _ _ _ Ha) as [Hsame|[Ht (pre1 & it1 & pre2 & s1 & e1 & -> & Ha1 & Hc1 & Hr)]].
    + rewrite Hsame. destruct (Hc eq_refl) as [Hs|[Hr Ht]]; [left; exact Hs|].
      right. split; [exact Ht|].
      exists [], it, pre, st, [].
      split; [reflexivity|]. split; [reflexivity|]. split; assumption.
    + right. split; [exact Ht|].
      exists (it :: pre1), it1, pre2, s1, (effs1 ++ e1).
      split; [reflexivity|]. split; [|split; assumption].
      cbn [advance]. destruct (Z.ltb_spec (collected st) TARGET_REPOS); [|lia].
      rewrite Eb, Ha1. reflexivity.
Qed.

(** X13.  Every request of a run is the request of a turn that is run:
    it asks for [PAGE_SIZE] results of the query "stars:>0" after the
    cursor of the state at that turn, and that cursor is [null] or a
    non-empty [endCursor] carried by the response, without GraphQL
    errors, that [callGithub] returned in an earlier turn of the run:
    the loop never makes up a cursor and never asks with an empty
    one. *)
Theorem main_requests TARGET_REPOS w r :
  main TARGET_REPOS w = Some r ->
  forall v,
    In (CallGithub v) (trace r) ->
    Request.queryString v = "stars:>0" /\ Request.first v = 100
    /\ exists pre it st effs,
         runs_turn TARGET_REPOS (script w) pre it st effs
         /\ v = variables (after st)
         /\ (after st = None
             \/ (JS.truthy (after st) = true
                 /\ received_earlier TARGET_REPOS initial pre (after st))).
Proof.
  intros H v Hin. apply main_trace in H.
  destruct H as [(_ & Ht & _)|(_ & x & effs & Hl & Ht)].
  - rewrite Ht in Hin. destruct Hin as [Hin|[]]. discriminate Hin.
  - assert (Hv : In (CallGithub v) effs).
    { destruct Ht as [Ht|Ht]; rewrite Ht in Hin;
        destruct Hin as [Hin|Hin]; try discriminate Hin; [exact Hin|].
      apply in_app_or in Hin. destruct Hin as [Hin|[Hin|[]]];
        [exact Hin|discriminate Hin]. }
    destruct (loop_requests _ _ _ _ _ _ Hl v Hv)
      as (pre & it & rest & stk & effsk & Hscr & Ha & Hc & ->).
    split; [reflexivity|]. split; [reflexivity|].
    exists pre, it, stk, effsk.
    split; [split; [exists rest; exact Hscr|split; assumption]|].
    split; [reflexivity|].
    exact (advance_cursor _ _ _ _ _ Ha).
Qed.

Lemma main_requests_witness :
  let v := variables (Some "Y3Vyc29yOjI=") in
  Request.queryString v = "stars:>0" /\ Request.first v = 100
  /\ exists pre it st effs,
       runs_turn 3 (script two_pages_world) pre it st effs
       /\ v = variables (after st)
       /\ (after st = None
           \/ (JS.truthy (after st) = true
               /\ received_earlier 3 initial pre (after st))).
Proof.
  intros v.
  refine (main_requests 3 two_pages_world
            {| trace := [EnsureSchema; CallGithub (variables None);
                         UpsertRepos two_repos true;
                         Sleep Throttle 200;
                         CallGithub (variables (Some "Y3Vyc29yOjI="));
                         UpsertRepos two_repos true;
                         Sleep Throttle 200; ClosePool];
               exit_code := 0;
               final := {| collected := 4; after := Some "Y3Vyc29yOjQ=";
                           page := 2 |} |}
            _ v _).
  - vm_compute. reflexivity.
  - do 4 right. left. reflexivity.
Defined.

(** ** Reaching the target *)

Lemma full_page_turn it st :
  full_page it ->
  exists st' effs,
    main_body it st = (Continue, st', effs)
    /\ collected st' = collected st + PAGE_SIZE
    /\ page st' = page st + 1
    /\ requests effs = 1%nat.
Proof.
  intros (d & p & s & es & repos
          & Hs & He & Hd & Hq & Hp & Hes & Hn & Hm & Ht & Ha & Hu).
  resolved (Hs (variables (after st))). rewrite He, Hd.
  rewrite (proj2 (rate_limit_wait_none _ (now it)) Hq), Hp.
  unfold handle_page. rewrite Hes.
  destruct es as [|e0 es]; [cbn in Hn; unfold PAGE_SIZE in Hn; lia|].
  rewrite Ha, Hu, Hm, Ht, (Array_map_length _ _ _ Ha). cbn [negb].
  eexists. eexists. split; [reflexivity|].
  cbn [collected page requests next_page app]. rewrite Hn. repeat split.
Qed.

Lemma loop_full_pages TARGET_REPOS (j : nat) :
  forall script st,
    Forall full_page script ->
    (j <= List.length script)%nat ->
    TARGET_REPOS <= collected st + PAGE_SIZE * Z.of_nat j ->
    (forall i, (i < j)%nat -> collected st + PAGE_SIZE * Z.of_nat i < TARGET_REPOS) ->
    exists st' effs,
      loop TARGET_REPOS script st = Some (TargetReached, st', effs)
      /\ collected st' = collected st + PAGE_SIZE * Z.of_nat j
      /\ page st' = page st + Z.of_nat j
      /\ requests effs = j.
Proof.
  induction j as [|j IH]; intros script st Hf Hl Hge Hlt.
  - exists st, []. split.
    + destruct script; cbn [loop];
        destruct (Z.ltb_spec (collected st) TARGET_REPOS); try reflexivity; lia.
    + repeat split; lia.
  - destruct script as [|it rest]; [cbn in Hl; lia|].
    inversion Hf as [|? ? Hit Hrest]; subst.
    destruct (full_page_turn it st Hit) as (st1 & effs1 & Hb & Hc & Hp & Hr).
    destruct (IH rest st1 Hrest) as (st' & effs & Hloop & Hc' & Hp' & Hr').
    + cbn in Hl. lia.
    + lia.
    + intros i Hi. specialize (Hlt (S i) ltac:(lia)). lia.
    + exists st', (effs1 ++ effs). split.
      * cbn [loop]. specialize (Hlt 0%nat ltac:(lia)).
        destruct (Z.ltb_spec (collected st) TARGET_REPOS); [|lia].
        rewrite Hb, Hloop. reflexivity.
      * rewrite requests_app. repeat split; lia.
Qed.

(** X14.  When every turn delivers a full page that is persisted, with
    more to come, a positive target [T] is reached after exactly
    [ceil(T / PAGE_SIZE)] requests, with [PAGE_SIZE * ceil(T / PAGE_SIZE)]
    records collected, and the process ends with exit code 0 when
    [closePool] resolves. *)
Theorem full_pages_reach_target TARGET_REPOS w :
  0 < TARGET_REPOS ->
  ensureSchema w = true ->
  Forall full_page (script w) ->
  (TARGET_REPOS + 99) / 100 <= Z.of_nat (List.length (script w)) ->
  exists r,
    main TARGET_REPOS w = Some r
    /\ collected (final r) = 100 * ((TARGET_REPOS + 99) / 100)
    /\ Z.of_nat (requests (trace r)) = (TARGET_REPOS + 99) / 100
    /\ exit_code r = (if closePool w then 0 else 1).
Proof.
  intros Ht Hes Hf Hn.
  set (n := (TARGET_REPOS + 99) / 100) in *.
  assert (Hn1 : 100 * n <= TARGET_REPOS + 99 < 100 * n + 100).
  { unfold n. pose proof (Z.div_mod (TARGET_REPOS + 99) 100 ltac:(lia)).
    pose proof (Z.mod_pos_bound (TARGET_REPOS + 99) 100 ltac:(lia)). lia. }
  destruct (loop_full_pages TARGET_REPOS (Z.to_nat n) (script w) initial Hf)
    as (st' & effs & Hl & Hc & Hp & Hr).
  - lia.
  - cbn [initial collected]. unfold PAGE_SIZE. lia.
  - intros i Hi. cbn [initial collected]. unfold PAGE_SIZE. lia.
  - unfold main. rewrite Hes. cbn [negb]. rewrite Hl.
    eexists. split; [reflexivity|]. cbn [final trace exit_code requests].
    rewrite requests_app, Hr. cbn [requests].
    cbn [initial collected] in Hc. unfold PAGE_SIZE in Hc.
    repeat split; lia.
Qed.

Lemma full_pages_reach_target_witness :
  exists r,
    main 150 {| ensureSchema := true;
                script := [answers full_body 0 true; answers full_body 0 true];
                closePool := true |} = Some r
    /\ collected (final r) = 100 * ((150 + 99) / 100)
    /\ Z.of_nat (requests (trace r)) = (150 + 99) / 100
    /\ exit_code r = 0.
Proof.
  refine (full_pages_reach_target 150
            {| ensureSchema := true;
               script := [answers full_body 0 true; answers full_body 0 true];
               closePool := true |} _ _ _ _).
  - lia.
  - reflexivity.
  - assert (H : full_page (answers full_body 0 true)).
    { exists full_body,
        {| rateLimit := None;
           search := Some (a_search (repeat (an_edge "R_1") 100)
                             (Some "Y3Vyc29yOjEwMA==") true) |},
        (a_search (repeat (an_edge "R_1") 100)
           (Some "Y3Vyc29yOjEwMA==") true),
        (repeat (an_edge "R_1") 100), (repeat (a_repo "R_1") 100).
      split; [intros v; vm_compute; reflexivity|].
      split; [reflexivity|]. split; [reflexivity|].
      split; [intros rl Hrl; discriminate Hrl|].
      split; [reflexivity|]. split; [reflexivity|].
      split; [vm_compute; reflexivity|].
      split; [reflexivity|]. split; [reflexivity|].
      split; vm_compute; reflexivity. }
    repeat constructor; exact H.
  - vm_compute. discriminate.
Defined.


(** ** Setup, and the target as a guard *)

(** X15.  [ensureSchema] is the first step of every run and is not
    called again; when it rejects, nothing else happens: no request is
    made, nothing is persisted, and the exit code is 1. *)
Theorem main_ensureSchema_first TARGET_REPOS w r :
  main TARGET_REPOS w = Some r ->
  exists rest,
    trace r = EnsureSchema :: rest
    /\ ~ In EnsureSchema rest
    /\ (ensureSchema w = false ->
        rest = [] /\ exit_code r = 1 /\ final r = initial).
Proof.
  unfold main. destruct (ensureSchema w); cbn [negb].
  - destruct (loop TARGET_REPOS (script w) initial) as [[[x st] effs]|] eqn:Hl;
      [|discriminate].
    pose proof (loop_in_loop _ _ _ _ _ _ Hl) as Hin.
    rewrite forallb_forall in Hin.
    assert (Hn : ~ In EnsureSchema effs).
    { intros H. specialize (Hin _ H). discriminate Hin. }
    destruct x; intros H; injection H as <-; cbn [trace];
      eexists; (split; [reflexivity|]); (split; [|discriminate]);
      try exact Hn;
      intros H; apply in_app_or in H;
      destruct H as [H|[H|[]]]; [exact (Hn H)|discriminate H
                                |exact (Hn H)|discriminate H].
  - intros H; injection H as <-. exists []. cbn. repeat split. intros [].
Qed.

Lemma main_ensureSchema_first_witness :
  exists rest,
    [EnsureSchema] = EnsureSchema :: rest
    /\ ~ In EnsureSchema rest
    /\ (ensureSchema no_schema_world = false ->
        rest = [] /\ 1 = 1 /\ initial = initial).
Proof.
  exact (main_ensureSchema_first 100000 no_schema_world
           {| trace := [EnsureSchema]; exit_code := 1; final := initial |}
           ltac:(vm_compute; reflexivity)).
Defined.

Lemma guarded_app TARGET_REPOS e1 :
  forall c e2,
    guarded TARGET_REPOS c e1 ->
    guarded TARGET_REPOS (c + persisted e1) e2 ->
    guarded TARGET_REPOS c (e1 ++ e2).
Proof.
  induction e1 as [|[|v|why ms|repos [|]|] r IH]; intros c e2 H1 H2;
    cbn [app guarded persisted] in *.
  - replace c with (c + 0) by lia. exact H2.
  - apply IH; assumption.
  - split; [apply H1|]. apply IH; [apply H1|exact H2].
  - apply IH; assumption.
  - apply IH; [exact H1|].
    replace (c + Z.of_nat (List.length repos) + persisted r)
      with (c + (Z.of_nat (List.length repos) + persisted r)) by lia.
    exact H2.
  - apply IH; assumption.
  - apply IH; assumption.
Qed.

Lemma guarded_no_request TARGET_REPOS effs :
  forall c, requests effs = 0%nat -> guarded TARGET_REPOS c effs.
Proof.
  induction effs as [|[|v|why ms|repos [|]|] r IH]; intros c H;
    cbn [guarded requests] in *; try discriminate; try exact I;
    apply IH; exact H.
Qed.

Lemma loop_guarded TARGET_REPOS script :
  forall st x st' effs,
    loop TARGET_REPOS script st = Some (x, st', effs) ->
    guarded TARGET_REPOS (collected st) effs.
Proof.
  induction script as [|it rest IH]; intros st x st' effs; cbn [loop];
    destruct (Z.ltb_spec (collected st) TARGET_REPOS) as [Hlt|Hge];
    try discriminate;
    try (intros H; injection H as <- <- <-; exact I).
  assert (Hturn : guarded TARGET_REPOS (collected st) (snd (main_body it st))).
  { pose proof (main_body_accounts it st) as Ha.
    destruct (main_body_request it st) as [tail Hr].
    destruct (main_body it st) as [[f s1] e1]. cbn [snd] in *.
    destruct Ha as (_ & _ & Hreq & _). subst e1. cbn [requests] in Hreq.
    cbn [guarded]. split; [exact Hlt|].
    apply guarded_no_request. lia. }
  pose proof (main_body_accounts it st) as Ha.
  destruct (main_body it st) as [[[| | |] st1] effs1]; cbn [snd] in *;
    try discriminate.
  - destruct (loop TARGET_REPOS rest st1) as [[[x2 st2] effs2]|] eqn:Hl;
      [|discriminate].
    intros H; injection H as <- <- <-.
    apply guarded_app; [exact Hturn|].
    destruct Ha as (Hc & _). rewrite <- Hc. exact (IH _ _ _ _ Hl).
  - intros H; injection H as <- <- <-. exact Hturn.
  - intros H; injection H as <- <- <-. exact Hturn.
Qed.

(** X16.  Every request of a run is made while fewer than
    [TARGET_REPOS] records have been persisted: once the target is
    reached no further page is asked for, and with a target of 0 or
    less no request is made at all. *)
Theorem main_requests_below_target TARGET_REPOS w r :
  main TARGET_REPOS w = Some r ->
  guarded TARGET_REPOS 0 (trace r)
  /\ (TARGET_REPOS <= 0 -> requests (trace r) = 0%nat).
Proof.
  intros H. apply main_trace in H.
  destruct H as [(_ & -> & _)|(_ & x & effs & Hl & Ht)];
    [split; [exact I|reflexivity]|].
  pose proof (loop_guarded _ _ _ _ _ _ Hl) as Hg. cbn [initial collected] in Hg.
  assert (Hz : TARGET_REPOS <= 0 -> requests effs = 0%nat).
  { intros Hle. destruct (script w) as [|it rest]; cbn [loop] in Hl;
      destruct (Z.ltb_spec (collected initial) TARGET_REPOS) as [Hlt|_];
      try (cbn in Hlt; lia); injection Hl as _ _ <-; reflexivity. }
  destruct Ht as [-> | ->]; cbn [guarded requests]; split;
    try exact Hg;
    try (apply guarded_app; [exact Hg|exact I]);
    intros Hle; rewrite ?requests_app, (Hz Hle); reflexivity.
Qed.

Lemma main_requests_below_target_witness :
  guarded 3 0 [EnsureSchema; CallGithub (variables None);
               UpsertRepos two_repos true; Sleep Throttle 200;
               CallGithub (variables (Some "Y3Vyc29yOjI="));
               UpsertRepos two_repos true; Sleep Throttle 200;
               ClosePool].
Proof.
  refine (proj1 (main_requests_below_target 3 two_pages_world
            {| trace := [EnsureSchema; CallGithub (variables None);
                         UpsertRepos two_repos true;
                         Sleep Throttle 200;
                         CallGithub (variables (Some "Y3Vyc29yOjI="));
                         UpsertRepos two_repos true;
                         Sleep Throttle 200; ClosePool];
               exit_code := 0;
               final := {| collected := 4; after := Some "Y3Vyc29yOjQ=";
                           page := 2 |} |}
            eq_refl)).
Defined.
